(** * Webbly CMS: the search and cache subsystem

    A shallow embedding of [webbly/search.py] and [webbly/cache.py] and the
    properties the specification states about them.

    Python strings are embedded as lists of characters whose code points lie
    below 256 (the Latin-1 block of Unicode), one [ascii] per code point.  On
    that block [str.lower], [str.isspace] and the regular-expression classes
    [\w] and [\s] are the tables written out in [PyStr]. *)

From Stdlib Require Import ZArith NArith Ascii String List Lia DecimalString Sorted
  Permutation.
From stdpp Require Import base gmap list strings.
Import ListNotations.

(** ** Python strings *)

Module PyStr.

Definition str := list ascii.

(** A string literal. *)
Definition lit (s : string) : str := list_ascii_of_string s.

Definition code (c : ascii) : N := N_of_ascii c.

Definition in_range (lo hi : N) (c : ascii) : bool :=
  ((lo <=? code c) && (code c <=? hi))%N.

(** [str.isupper] on one cased character: A-Z and the capital letters of
    Latin-1 (U+00C0..U+00DE without the multiplication sign U+00D7). *)
Definition is_upper (c : ascii) : bool :=
  in_range 65 90 c || in_range 192 214 c || in_range 216 222 c.

(** [str.lower] on one character: every capital letter of the block has its
    small letter 32 code points above it. *)
Definition lower_char (c : ascii) : ascii :=
  if is_upper c then ascii_of_N (code c + 32) else c.

(** [s.lower()] *)
Definition lower (s : str) : str := map lower_char s.

(** [\s], [str.isspace]: TAB LF VT FF CR, the four separators U+001C..U+001F,
    SPACE, NEL (U+0085) and NBSP (U+00A0). *)
Definition is_space (c : ascii) : bool :=
  in_range 9 13 c || in_range 28 32 c || (code c =? 133)%N || (code c =? 160)%N.

(** [\w]: the alphanumeric characters and the underscore. *)
Definition is_word (c : ascii) : bool :=
  in_range 48 57 c || in_range 65 90 c || (code c =? 95)%N || in_range 97 122 c
  || (code c =? 170)%N || in_range 178 179 c || (code c =? 181)%N
  || in_range 185 186 c || in_range 188 190 c || in_range 192 214 c
  || in_range 216 246 c || in_range 248 255 c.

Definition space : ascii := " "%char.
Definition hyphen : ascii := "-"%char.

Definition str_eqb (a b : str) : bool := bool_decide (a = b).

(** [s.startswith(p)] *)
Fixpoint starts_with (p s : str) : bool :=
  match p, s with
  | [], _ => true
  | _ :: _, [] => false
  | a :: p', b :: s' => Ascii.eqb a b && starts_with p' s'
  end.

(** [s.find(sub)]: the least index at which [sub] occurs, [None] for -1. *)
Fixpoint find (sub s : str) : option nat :=
  if starts_with sub s then Some 0%nat
  else match s with
       | [] => None
       | _ :: s' => option_map S (find sub s')
       end.

(** [sub in s] *)
Definition contains (sub s : str) : bool :=
  match find sub s with Some _ => true | None => false end.

(** [s.strip()] *)
Fixpoint lstrip (s : str) : str :=
  match s with
  | c :: s' => if is_space c then lstrip s' else s
  | [] => []
  end.

Definition rstrip (s : str) : str := rev (lstrip (rev s)).

Definition strip (s : str) : str := rstrip (lstrip s).

(** [s.split()]: the maximal runs of characters that are not white space.
    [cur] holds the run being read, last character first. *)
Fixpoint split_go (cur : str) (s : str) : list str :=
  match s with
  | [] => match cur with [] => [] | _ => [rev cur] end
  | c :: s' =>
      if is_space c
      then match cur with [] => split_go [] s' | _ => rev cur :: split_go [] s' end
      else split_go (c :: cur) s'
  end.

Definition split (s : str) : list str := split_go [] s.

(** [sep.join(parts)] *)
Fixpoint join (sep : str) (parts : list str) : str :=
  match parts with
  | [] => []
  | [p] => p
  | p :: rest => p ++ sep ++ join sep rest
  end.

(** [s[a:b]] for indices [0 <= a] and [0 <= b]. *)
Definition slice (a b : nat) (s : str) : str := drop a (take b s).

(** *** Substitution of the matches of a pattern

    [re.sub] and [str.replace] read the text from the left; where the pattern
    matches they write the replacement and go on behind the match, elsewhere
    they copy one character.  A pattern is given by its matcher: [m s] is
    [Some (n, r)] when the pattern matches the first [n + 1] characters of
    [s] and [r] replaces them.  No pattern of the program matches the empty
    string.  [skip] counts the characters of the last match still to pass. *)
Definition matcher := str -> option (nat * str).

Fixpoint sub_go (m : matcher) (skip : nat) (s : str) : str :=
  match s with
  | [] => []
  | c :: s' =>
      match skip with
      | S k => sub_go m k s'
      | O => match m s with
             | Some (n, r) => r ++ sub_go m n s'
             | None => c :: sub_go m 0 s'
             end
      end
  end.

Definition sub (m : matcher) (s : str) : str := sub_go m 0 s.

(** The matcher of a literal: [old] itself, replaced by [new]. *)
Definition m_literal (old new : str) : matcher := fun s =>
  match old with
  | [] => None
  | _ :: old' => if starts_with old s then Some (length old', new) else None
  end.

(** [s.replace(old, new)] for a non-empty [old]. *)
Definition replace (old new : str) (s : str) : str := sub (m_literal old new) s.

(** The length of the longest prefix of [s] whose characters satisfy [p]. *)
Fixpoint run (p : ascii -> bool) (s : str) : nat :=
  match s with
  | c :: s' => if p c then S (run p s') else 0
  | [] => 0
  end.

(** Code point order of two strings, the order [<=] of Python strings. *)
Fixpoint str_leb (a b : str) : bool :=
  match a, b with
  | [], _ => true
  | _ :: _, [] => false
  | x :: a', y :: b' =>
      if (code x <? code y)%N then true
      else if (code y <? code x)%N then false
      else str_leb a' b'
  end.

(** A stable insertion sort, for [sorted] and for [ORDER BY]: elements that
    [leb] ranks alike keep the order they had. *)
Fixpoint insert_by {A} (leb : A -> A -> bool) (x : A) (l : list A) : list A :=
  match l with
  | [] => [x]
  | y :: l' => if leb x y then x :: l else y :: insert_by leb x l'
  end.

Fixpoint order_by {A} (leb : A -> A -> bool) (l : list A) : list A :=
  match l with
  | [] => []
  | x :: l' => insert_by leb x (order_by leb l')
  end.

End PyStr.

(** ** The content store *)

Module Models.
Import PyStr.

(** Modelled from the spec: the class [Post] of [webbly/models.py], which is
    not among the sources.  A row carries the columns [Search.search] reads:
    title, content, the optional excerpt (a NULL column is [None]), the
    [published] flag and the creation time. *)
Record Post := {
  post_title : str;
  post_content : str;
  post_excerpt : option str;
  post_published : bool;
  post_created_at : Z
}.

(** Modelled from the spec: the class [Page] of [webbly/models.py], with
    title, content and the [published] flag. *)
Record Page := {
  page_title : str;
  page_content : str;
  page_published : bool
}.

(** [column.ilike('%q%')] for a [q] without [%]: some part of the column
    matches [q], where the pattern character [_] stands for any one character
    and letters match without regard to case.  Case is folded as [str.lower]
    folds it, on the whole block; a database may fold fewer letters (SQLite
    folds A-Z only), and [SearchMethod] leaves the test to the database. *)
Fixpoint like_prefix (q s : str) : bool :=
  match q, s with
  | [], _ => true
  | _ :: _, [] => false
  | a :: q', b :: s' =>
      (Ascii.eqb a "_" || Ascii.eqb (lower_char a) (lower_char b)) && like_prefix q' s'
  end.

Fixpoint ilike_contains (q s : str) : bool :=
  like_prefix q s || match s with [] => false | _ :: s' => ilike_contains q s' end.

(** A NULL column matches nothing. *)
Definition ilike_column (q : str) (col : option str) : bool :=
  match col with Some s => ilike_contains q s | None => false end.

(** [query.limit(n)] behind [if limit:]: no limit for [None] and for 0. *)
Definition limit_to {A} (limit : option nat) (l : list A) : list A :=
  match limit with
  | Some (S n) => take (S n) l
  | _ => l
  end.

End Models.

(** ** [webbly/search.py] *)

Module Search.
Import PyStr Models.

(** The pattern [[^\w\s-]]: one character that is neither a word character
    nor white space nor the hyphen. *)
Definition is_special (c : ascii) : bool :=
  negb (is_word c || is_space c || Ascii.eqb c hyphen).

Definition m_special : matcher := fun s =>
  match s with
  | c :: _ => if is_special c then Some (0, []) else None
  | [] => None
  end.

(** The pattern [\s+], replaced by one space. *)
Definition m_spaces : matcher := fun s =>
  match run is_space s with
  | S n => Some (n, [space])
  | O => None
  end.

(** The pattern [<[^>]+>], replaced by nothing: a [<], at least one character
    other than [>], and the [>] that ends the run. *)
Definition not_gt (c : ascii) : bool := negb (Ascii.eqb c ">").

Definition m_tag : matcher := fun s =>
  match s with
  | c :: s' =>
      if Ascii.eqb c "<" then
        match run not_gt s' with
        | S n => match drop (S n) s' with
                 | _ :: _ => Some (S (S n), [])
                 | [] => None
                 end
        | O => None
        end
      else None
  | [] => None
  end.

(** [re.sub(r'<[^>]+>', '', content)] *)
Definition strip_tags (content : str) : str := sub m_tag content.

(** [Search._normalize_query] *)
Definition _normalize_query (query : str) : str :=
  (* Convert to lowercase *)
  let query := lower query in
  (* Remove special characters *)
  let query := sub m_special query in
  (* Replace multiple spaces with single space *)
  strip (sub m_spaces query).

(** [Search.get_excerpt]; [length] is a number of characters. *)
Definition get_excerpt (content query : str) (length : nat) : str * bool :=
  match content, query with
  | [], _ | _, [] => ([], false)
  | _, _ =>
      (* Strip HTML tags *)
      let content := strip_tags content in
      (* Find first occurrence of query *)
      let query_norm := _normalize_query query in
      let content_norm := _normalize_query content in
      match find query_norm content_norm with
      | None =>
          (* Query not found, return start of content *)
          if (List.length content <=? length)%nat then (content, false)
          else (slice 0 length content ++ lit "...", true)
      | Some pos =>
          (* Calculate excerpt range *)
          let start := Nat.max 0 (pos - length / 2) in
          let end_ := Nat.min (List.length content)
                              (pos + List.length query + length / 2) in
          (* Add ellipsis if needed *)
          let prefix := if (0 <? start)%nat then lit "..." else [] in
          let suffix := if (end_ <? List.length content)%nat then lit "..." else [] in
          let excerpt := prefix ++ slice start end_ content ++ suffix in
          let has_more := (end_ <? List.length content)%nat in
          (excerpt, has_more)
      end
  end.

(** The compiled pattern [(term)] under [re.IGNORECASE]: the text matches
    [term] letter by letter up to case, and [<mark>\1</mark>] keeps the text
    as it stood. *)
Fixpoint starts_with_ci (p s : str) : bool :=
  match p, s with
  | [], _ => true
  | _ :: _, [] => false
  | a :: p', b :: s' => Ascii.eqb (lower_char a) (lower_char b) && starts_with_ci p' s'
  end.

Definition m_mark (term : str) : matcher := fun s =>
  match term with
  | [] => None
  | _ :: term' =>
      if starts_with_ci term s
      then Some (List.length term',
                 lit "<mark>" ++ take (List.length term) s ++ lit "</mark>")
      else None
  end.

(** [Search.highlight_query] *)
Definition highlight_query (text query : str) : str :=
  match text, query with
  | [], _ | _, [] => text
  | _, _ =>
      (* Escape HTML entities *)
      let text := replace (lit ">") (lit ">")
                    (replace (lit "<") (lit "<")
                       (replace (lit "&") (lit "&amp;") text)) in
      (* Split query into terms *)
      let terms := split (_normalize_query query) in
      (* Highlight each term *)
      fold_left (fun highlighted term => sub (m_mark term) highlighted) terms text
  end.

(** The dictionary [word_freq], its keys in the order of their insertion.
    [word_freq[word] = word_freq.get(word, 0) + 1] *)
Fixpoint bump (word : str) (word_freq : list (str * nat)) : list (str * nat) :=
  match word_freq with
  | [] => [(word, 1%nat)]
  | (k, v) :: rest =>
      if str_eqb k word then (k, S v) :: rest else (k, v) :: bump word rest
  end.

Definition count_words (words : list str) : list (str * nat) :=
  fold_left (fun word_freq word => bump word word_freq) words [].

Definition stop_words : list str :=
  map lit ["the"; "be"; "to"; "of"; "and"; "a"; "in"; "that"; "have"]%string.

Definition is_stop_word (w : str) : bool := existsb (str_eqb w) stop_words.

(** [sorted(items, key=lambda x: x[1], reverse=True)]: a stable sort, items
    of equal count stay in the order they had. *)
Definition by_count_desc (x y : str * nat) : bool := (snd y <=? snd x)%nat.

(** [Search._extract_keywords]; [min_length] and [max_keywords] are counts. *)
Definition _extract_keywords (text : str) (min_length max_keywords : nat) : list str :=
  (* Remove HTML tags *)
  let text := strip_tags text in
  (* Convert to lowercase and split into words *)
  let words := split (lower text) in
  (* Remove common words and short words *)
  let words := List.filter
                 (fun w => (min_length <=? List.length w)%nat && negb (is_stop_word w))
                 words in
  (* Count word frequency *)
  let word_freq := count_words words in
  (* Sort by frequency and return top keywords *)
  let keywords := order_by by_count_desc word_freq in
  map fst (take max_keywords keywords).

(** The [or_] of the [ilike] tests on a post and on a page. *)
Definition post_matches (query : str) (p : Post) : bool :=
  ilike_contains query (post_title p)
  || ilike_contains query (post_content p)
  || ilike_column query (post_excerpt p).

Definition page_matches (query : str) (p : Page) : bool :=
  ilike_contains query (page_title p) || ilike_contains query (page_content p).

(** [Search.search] over the rows of the two tables: posts come newest
    first, pages by title.  The method is wrapped in [cache.memoize]; this is
    its body, which a call runs whenever the cache holds no result for it,
    with the [ilike] of [Models].  [SearchMethod.search] is the method with
    its decorator, on the database that is configured. *)
Definition search (posts_table : list Post) (pages_table : list Page)
    (query : str) (limit : option nat) (include_drafts : bool)
    : list Post * list Page :=
  match query with
  | [] => ([], [])
  | _ =>
      (* Normalize query *)
      let query := _normalize_query query in
      (* Search posts *)
      let posts_query :=
        if include_drafts then posts_table
        else List.filter post_published posts_table in
      let posts :=
        order_by (fun a b => (post_created_at b <=? post_created_at a)%Z)
          (List.filter (post_matches query) posts_query) in
      let posts := limit_to limit posts in
      (* Search pages *)
      let pages_query :=
        if include_drafts then pages_table
        else List.filter page_published pages_table in
      let pages :=
        order_by (fun a b => str_leb (page_title a) (page_title b))
          (List.filter (page_matches query) pages_query) in
      let pages := limit_to limit pages in
      (posts, pages)
  end.

End Search.


(** ** MD5 ([hashlib.md5]) over bytes, words as integers modulo 2^32 *)

Module Md5.
Import PyStr.
Local Open Scope Z_scope.

Definition mask32 : Z := 4294967295.

Definition add32 (a b : Z) : Z := Z.land (a + b) mask32.

Definition rotl32 (x c : Z) : Z :=
  Z.land (Z.lor (Z.shiftl x c) (Z.shiftr x (32 - c))) mask32.

Definition not32 (x : Z) : Z := Z.lxor x mask32.

Definition shifts : list Z :=
  [7; 12; 17; 22; 7; 12; 17; 22; 7; 12; 17; 22; 7; 12; 17; 22;
   5; 9; 14; 20; 5; 9; 14; 20; 5; 9; 14; 20; 5; 9; 14; 20;
   4; 11; 16; 23; 4; 11; 16; 23; 4; 11; 16; 23; 4; 11; 16; 23;
   6; 10; 15; 21; 6; 10; 15; 21; 6; 10; 15; 21; 6; 10; 15; 21].

Definition sines : list Z :=
  [3614090360; 3905402710; 606105819; 3250441966;
   4118548399; 1200080426; 2821735955; 4249261313;
   1770035416; 2336552879; 4294925233; 2304563134;
   1804603682; 4254626195; 2792965006; 1236535329;
   4129170786; 3225465664; 643717713; 3921069994;
   3593408605; 38016083; 3634488961; 3889429448;
   568446438; 3275163606; 4107603335; 1163531501;
   2850285829; 4243563512; 1735328473; 2368359562;
   4294588738; 2272392833; 1839030562; 4259657740;
   2763975236; 1272893353; 4139469664; 3200236656;
   681279174; 3936430074; 3572445317; 76029189;
   3654602809; 3873151461; 530742520; 3299628645;
   4096336452; 1126891415; 2878612391; 4237533241;
   1700485571; 2399980690; 4293915773; 2240044497;
   1873313359; 4264355552; 2734768916; 1309151649;
   4149444226; 3174756917; 718787259; 3951481745].

(** Little-endian bytes of a word and back. *)
Fixpoint le_bytes (n : nat) (x : Z) : list Z :=
  match n with
  | O => []
  | S n' => Z.land x 255 :: le_bytes n' (Z.shiftr x 8)
  end.

Fixpoint le_word (bs : list Z) : Z :=
  match bs with
  | [] => 0
  | b :: bs' => b + 256 * le_word bs'
  end.

(** The message, the byte 0x80, zero bytes up to 56 modulo 64, and the
    length in bits as eight bytes. *)
Definition pad (msg : list Z) : list Z :=
  let len := Z.of_nat (List.length msg) in
  let zeros := Z.to_nat ((55 - len) mod 64) in
  msg ++ [128] ++ List.repeat 0 zeros ++ le_bytes 8 (Z.land (8 * len) 18446744073709551615).

Fixpoint words (n : nat) (bs : list Z) : list Z :=
  match n with
  | O => []
  | S n' => le_word (take 4 bs) :: words n' (drop 4 bs)
  end.

Record state := { sa : Z; sb : Z; sc : Z; sd : Z }.

Definition init : state :=
  {| sa := 1732584193; sb := 4023233417; sc := 2562383102; sd := 271733878 |}.

Definition round (m : list Z) (i : Z) (st : state) : state :=
  let '(f, g) :=
    if i <? 16 then
      (Z.lor (Z.land (sb st) (sc st)) (Z.land (not32 (sb st)) (sd st)), i)
    else if i <? 32 then
      (Z.lor (Z.land (sd st) (sb st)) (Z.land (not32 (sd st)) (sc st)), (5 * i + 1) mod 16)
    else if i <? 48 then
      (Z.lxor (sb st) (Z.lxor (sc st) (sd st)), (3 * i + 5) mod 16)
    else
      (Z.lxor (sc st) (Z.lor (sb st) (not32 (sd st))), (7 * i) mod 16) in
  let f := add32 (add32 (add32 f (sa st)) (nth (Z.to_nat i) sines 0)) (nth (Z.to_nat g) m 0) in
  {| sa := sd st; sd := sc st; sc := sb st;
     sb := add32 (sb st) (rotl32 f (nth (Z.to_nat i) shifts 0)) |}.

Definition block (st : state) (m : list Z) : state :=
  let r := fold_left (fun s i => round m (Z.of_nat i) s) (seq 0 64) st in
  {| sa := add32 (sa st) (sa r); sb := add32 (sb st) (sb r);
     sc := add32 (sc st) (sc r); sd := add32 (sd st) (sd r) |}.

Fixpoint blocks (n : nat) (st : state) (bs : list Z) : state :=
  match n with
  | O => st
  | S n' => blocks n' (block st (words 16 (take 64 bs))) (drop 64 bs)
  end.

Definition digest (msg : list Z) : list Z :=
  let p := pad msg in
  let st := blocks (List.length p / 64) init p in
  le_bytes 4 (sa st) ++ le_bytes 4 (sb st) ++ le_bytes 4 (sc st) ++ le_bytes 4 (sd st).

Definition hex_digit (n : Z) : ascii :=
  nth (Z.to_nat n) (lit "0123456789abcdef") "0"%char.

Definition hex (bs : list Z) : str :=
  flat_map (fun b => [hex_digit (b / 16); hex_digit (b mod 16)]) bs.

(** [s.encode()]: UTF-8, one byte below U+0080 and two from there on. *)
Definition encode_char (c : ascii) : list Z :=
  let n := Z.of_N (code c) in
  if n <? 128 then [n] else [192 + n / 64; 128 + n mod 64].

Definition encode (s : str) : list Z := flat_map encode_char s.

(** [hashlib.md5(s.encode()).hexdigest()] *)
Definition hexdigest (s : str) : str := hex (digest (encode s)).

End Md5.

(** ** [webbly/cache.py] *)

Module Cache.
Import PyStr.

(** The Python values that occur as arguments and as cached results. *)
Inductive pyval :=
| PNone
| PBool (b : bool)
| PInt (z : Z)
| PStr (s : str).

(** [value is not None] *)
Definition is_not_none (v : pyval) : bool :=
  match v with PNone => false | _ => true end.

(** [str(value)], which an f-string applies too. *)
Definition py_str (v : pyval) : str :=
  match v with
  | PNone => lit "None"
  | PBool true => lit "True"
  | PBool false => lit "False"
  | PInt z => lit (NilZero.string_of_int (Z.to_int z))
  | PStr s => s
  end.

(** [sorted(d.items())]: [items] holds the pairs of the dictionary in the
    order of their insertion, as [items()] yields them; the keys of a
    dictionary being distinct, [sorted] orders the pairs by their keys. *)
Definition sorted_items {V} (items : list (str * V)) : list (str * V) :=
  order_by (fun x y => str_leb (fst x) (fst y)) items.

(** The text that [Cache._make_cache_key] hashes.  [request] is [None]
    outside a request context and the query parameters inside one. *)
Definition key_parts (f_name key_prefix : str) (args : list pyval)
    (kwargs : list (str * pyval)) (request : option (list (str * str))) : list str :=
  (* Start with function name *)
  [key_prefix; f_name]
  (* Add arguments *)
  ++ map py_str args
  (* Add sorted keyword arguments *)
  ++ map (fun kv => fst kv ++ lit ":" ++ py_str (snd kv)) (sorted_items kwargs)
  (* Add query parameters if in request context *)
  ++ match request with
     | Some request_args =>
         map (fun kv => fst kv ++ lit ":" ++ snd kv) (sorted_items request_args)
     | None => []
     end.

(** [Cache._make_cache_key] *)
Definition _make_cache_key (f_name key_prefix : str) (args : list pyval)
    (kwargs : list (str * pyval)) (request : option (list (str * str))) : str :=
  (* Join parts and hash *)
  let key := join (lit "_") (key_parts f_name key_prefix args kwargs request) in
  Md5.hexdigest key.

(** *** Computations that change a state and may raise *)

Inductive exn :=
| BackendUnavailable
| Error (name : str).

Inductive outcome (A : Type) :=
| Return (a : A)
| Raise (e : exn).
Arguments Return {A} a.
Arguments Raise {A} e.

Definition M (S A : Type) : Type := S -> outcome A * S.

Definition ret {S A} (a : A) : M S A := fun s => (Return a, s).

Definition bind {S A B} (m : M S A) (k : A -> M S B) : M S B := fun s =>
  match m s with
  | (Return a, s') => k a s'
  | (Raise e, s') => (Raise e, s')
  end.

Notation "x <- m ;; k" := (bind m (fun x => k))
  (at level 100, m at next level, right associativity).

(** A computation on one half of a pair of states. *)
Definition on_fst {S W A} (m : M S A) : M (S * W) A := fun sw =>
  let '(r, s') := m (fst sw) in (r, (s', snd sw)).

Definition on_snd {S W A} (m : M W A) : M (S * W) A := fun sw =>
  let '(r, w') := m (snd sw) in (r, (fst sw, w')).

(** *** The backend behind [self.cache]

    What [Cache] asks of a werkzeug cache object: [get], [set], [delete] and
    [clear] on a store of type [S]. *)
Record backend (S : Type) := {
  backend_get : str -> M S pyval;
  backend_set : str -> pyval -> option Z -> M S bool;
  backend_delete : str -> M S bool;
  backend_clear : M S bool
}.
Arguments backend_get {S}.
Arguments backend_set {S}.
Arguments backend_delete {S}.
Arguments backend_clear {S}.

(** [Cache.get], [Cache.set], [Cache.delete], [Cache.clear] *)
Definition get {S} (cache : backend S) (key : str) : M S pyval :=
  backend_get cache key.

Definition set {S} (cache : backend S) (key : str) (value : pyval)
    (timeout : option Z) : M S bool :=
  backend_set cache key value timeout.

Definition delete {S} (cache : backend S) (key : str) : M S bool :=
  backend_delete cache key.

Definition clear {S} (cache : backend S) : M S bool :=
  backend_clear cache.

(** A decorated function: its [__name__] and its body, which works on a
    state [W] of its own. *)
Record pyfun (W : Type) := {
  fn_name : str;
  fn_call : list pyval -> list (str * pyval) -> M W pyval
}.
Arguments fn_name {W}.
Arguments fn_call {W}.

(** [Cache.cached]: the function [decorated_function]. *)
Definition cached {S W} (cache : backend S) (request : option (list (str * str)))
    (timeout : option Z) (key_prefix : str) (f : pyfun W)
    (args : list pyval) (kwargs : list (str * pyval)) : M (S * W) pyval :=
  (* Create cache key from function name, args, and query params *)
  let cache_key := _make_cache_key (fn_name f) key_prefix args kwargs request in
  (* Try to get response from cache *)
  rv <- on_fst (get cache cache_key) ;;
  if is_not_none rv then ret rv
  else
    (* Generate response and cache it *)
    rv <- on_snd (fn_call f args kwargs) ;;
    _ <- on_fst (set cache cache_key rv timeout) ;;
    ret rv.

(** [Cache.memoize]: the function [decorated_function]. *)
Definition memoize {S W} (cache : backend S) (request : option (list (str * str)))
    (timeout : option Z) (f : pyfun W)
    (args : list pyval) (kwargs : list (str * pyval)) : M (S * W) pyval :=
  let cache_key := _make_cache_key (fn_name f) (lit "memo") args kwargs request in
  rv <- on_fst (get cache cache_key) ;;
  if is_not_none rv then ret rv
  else
    rv <- on_snd (fn_call f args kwargs) ;;
    _ <- on_fst (set cache cache_key rv timeout) ;;
    ret rv.

(** *** The file system backend

    [werkzeug.contrib.cache.FileSystemCache], the backend [init_app] builds
    unless [CACHE_TYPE] is ['redis'], keeps one file per entry in its
    directory.  The file of a key is named by the MD5 digest of the key and
    holds the time the entry expires (0: never) and the value.  The directory
    is embedded as a finite map from file names to files; the pruning of a
    directory that outgrew its threshold of 500 entries is left out. *)
Record fs_file := { expires : Z; payload : pyval }.

Record fs_cache := {
  fs_path : gmap str fs_file;   (* the directory [self._path] *)
  fs_time : Z                   (* the clock, [time()] *)
}.

Definition default_timeout : Z := 300.

Definition _get_filename (key : str) : str := Md5.hexdigest key.

Definition fs_get (key : str) : M fs_cache pyval := fun c =>
  let filename := _get_filename key in
  match fs_path c !! filename with
  | Some file =>
      if ((expires file =? 0) || (fs_time c <=? expires file))%Z
      then (Return (payload file), c)
      else (Return PNone, {| fs_path := base.delete filename (fs_path c); fs_time := fs_time c |})
  | None => (Return PNone, c)
  end.

Definition _normalize_timeout (now : Z) (timeout : option Z) : Z :=
  let timeout := match timeout with Some t => t | None => default_timeout end in
  if (timeout =? 0)%Z then 0%Z else (now + timeout)%Z.

Definition fs_set (key : str) (value : pyval) (timeout : option Z) : M fs_cache bool :=
  fun c =>
    let file := {| expires := _normalize_timeout (fs_time c) timeout; payload := value |} in
    (Return true,
     {| fs_path := <[_get_filename key := file]> (fs_path c); fs_time := fs_time c |}).

Definition fs_delete (key : str) : M fs_cache bool := fun c =>
  let filename := _get_filename key in
  match fs_path c !! filename with
  | Some _ =>
      (Return true, {| fs_path := base.delete filename (fs_path c); fs_time := fs_time c |})
  | None => (Return false, c)
  end.

Definition fs_clear : M fs_cache bool := fun c =>
  (Return true, {| fs_path := ∅; fs_time := fs_time c |}).

Definition FileSystemCache : backend fs_cache := {|
  backend_get := fs_get;
  backend_set := fs_set;
  backend_delete := fs_delete;
  backend_clear := fs_clear
|}.

(** [Cache.invalidate] on a [FileSystemCache]: every file of the directory
    whose name has [pattern] in it is removed.  (The branch for [RedisCache]
    hands the pattern to the server and is not embedded.) *)
Definition invalidate (pattern : str) : M fs_cache unit := fun c =>
  (Return tt,
   {| fs_path := filter (fun entry => contains pattern (fst entry) = false) (fs_path c);
      fs_time := fs_time c |}).

(** A backend whose storage answers the operations it is told to. *)
Definition flaky (get_ok set_ok : bool) : backend unit := {|
  backend_get := fun _ s =>
    (if get_ok then Return PNone else Raise BackendUnavailable, s);
  backend_set := fun _ _ _ s =>
    (if set_ok then Return true else Raise BackendUnavailable, s);
  backend_delete := fun _ s => (Raise BackendUnavailable, s);
  backend_clear := fun s => (Raise BackendUnavailable, s)
|}.

(** What a decorated function does when the cache has no value for the key:
    it runs the function, stores the result and returns it. *)
Definition run_and_store {S W} (cache : backend S) (cache_key : str)
    (timeout : option Z) (f : pyfun W)
    (args : list pyval) (kwargs : list (str * pyval)) : M (S * W) pyval :=
  rv <- on_snd (fn_call f args kwargs) ;;
  _ <- on_fst (set cache cache_key rv timeout) ;;
  ret rv.


(** A function that counts its calls and returns [value]. *)
Definition counting (name : str) (value : pyval) : pyfun nat := {|
  fn_name := name;
  fn_call := fun _ _ calls => (Return value, S calls)
|}.

Definition empty_cache : fs_cache := {| fs_path := ∅; fs_time := 0 |}.

(** The scenario of [test_cache_invalidation]. *)
Definition invalidation_scenario : M fs_cache (pyval * pyval * pyval) :=
  _ <- set FileSystemCache (lit "user:1:profile") (PStr (lit "data")) None ;;
  _ <- set FileSystemCache (lit "user:1:posts") (PStr (lit "data")) None ;;
  _ <- set FileSystemCache (lit "user:2:profile") (PStr (lit "data")) None ;;
  (* Invalidate by pattern *)
  _ <- invalidate (lit "user:1:*") ;;
  a <- get FileSystemCache (lit "user:1:profile") ;;
  b <- get FileSystemCache (lit "user:1:posts") ;;
  c <- get FileSystemCache (lit "user:2:profile") ;;
  ret (a, b, c).

End Cache.

(** ** Notions the properties are stated with *)

Module Props.
Import PyStr Search.

(** [\s+] replaced by one space, read with a flag in place of the look-ahead:
    [in_run] says that the character before was white space. *)
Fixpoint collapse (in_run : bool) (s : str) : str :=
  match s with
  | [] => []
  | c :: s' =>
      if is_space c
      then (if in_run then collapse true s' else space :: collapse true s')
      else c :: collapse false s'
  end.

(** No white space at the front. *)
Definition head_ok (s : str) : bool :=
  match s with c :: _ => negb (is_space c) | [] => true end.

(** The only white space is the space character, and never two in a row. *)
Fixpoint tidy (s : str) : bool :=
  match s with
  | [] => true
  | c :: s' => (if is_space c then Ascii.eqb c space && head_ok s' else true) && tidy s'
  end.

(** A character normalization leaves alone. *)
Definition settled (c : ascii) : Prop := lower_char c = c /\ is_special c = false.

(** The class [[a-z0-9\s-]] of the specification. *)
Definition in_spec_class (c : ascii) : bool :=
  in_range 97 122 c || in_range 48 57 c || is_space c || Ascii.eqb c hyphen.

(** The words [_extract_keywords] counts: the tokens of the stripped, lower
    case text that are long enough and no stop words. *)
Definition kept_words (text : str) (min_length : nat) : list str :=
  List.filter
    (fun w => (min_length <=? List.length w)%nat && negb (is_stop_word w))
    (split (lower (strip_tags text))).

(** How often [w] occurs in [ws]. *)
Fixpoint freq (w : str) (ws : list str) : nat :=
  match ws with
  | [] => 0
  | x :: ws' => (if str_eqb x w then 1 else 0) + freq w ws'
  end.

(** Where [w] occurs first in [ws] (the length of [ws] if nowhere). *)
Fixpoint first_seen (w : str) (ws : list str) : nat :=
  match ws with
  | [] => 0
  | x :: ws' => if str_eqb x w then 0 else S (first_seen w ws')
  end.

(** The text of a call that [Cache._make_cache_key] hashes: the parts of the
    key, joined by [_]. *)
Definition key_text (f_name key_prefix : str) (args : list Cache.pyval)
    (kwargs : list (str * Cache.pyval)) (request : option (list (str * str))) : str :=
  join (lit "_") (Cache.key_parts f_name key_prefix args kwargs request).

(** MD5 collides on the texts [t] and [t']: they are two texts, and their
    encodings have one digest. *)
Definition md5_collide (t t' : str) : Prop :=
  t <> t' /\ Md5.digest (Md5.encode t) = Md5.digest (Md5.encode t').

(** A byte. *)
Definition is_byte (b : Z) : Prop := (0 <= b < 256)%Z.

(** In a stable sort by [leb], [x] comes to stand before [y]: [x] is ranked
    no later than [y], and where the two rank alike [x] stood before [y]. *)
Definition ranked {A : Type} (leb : A -> A -> bool) (before : A -> A -> Prop)
    (x y : A) : Prop :=
  leb x y = true /\ (leb y x = true -> before x y).

End Props.

(** ** The data of the scenarios *)

Module Scenario.
Import PyStr Models.

Definition test_post : Post :=
  {| post_title := lit "Test Post"; post_content := lit "Test content";
     post_excerpt := None; post_published := true; post_created_at := 2 |}.

Definition another_post : Post :=
  {| post_title := lit "Another Post"; post_content := lit "Different content";
     post_excerpt := None; post_published := true; post_created_at := 1 |}.

Definition about_page : Page :=
  {| page_title := lit "About"; page_content := lit "Who we are";
     page_published := true |}.

(** The content of [test_search_excerpts]. *)
Definition long_content : str :=
  lit "This is a long piece of content that contains the search term somewhere in the middle.".

(** A [Search] object as [str] renders it, and the two tables. *)
Definition search_object : str :=
  lit "<webbly.search.Search object at 0x7f3a5c0d2e50>".

Definition posts_table : list Post := [another_post; test_post].

Definition pages_table : list Page := [about_page].

End Scenario.

(** ** Related posts ([Search.get_related]) *)

Module Related.
Import PyStr Models Search.

(** Modelled from the spec: a row of the table of posts, the post with its
    primary key [Post.id] ([webbly/models.py] is not among the sources). *)
Record PostRow := {
  row_id : Z;
  row_post : Post
}.

(** The key of the sort: the number of keywords that occur, without regard
    to case, in the title or in the content. *)
Definition keyword_score (keywords : list str) (p : Post) : nat :=
  List.length
    (List.filter
       (fun kw => contains (lower kw) (lower (post_title p))
                  || contains (lower kw) (lower (post_content p)))
       keywords).

(** [Search.get_related].  [any_ilike keywords p] is the verdict of the
    database on the clause [or_(title.ilike('%kw%')..., content.ilike('%kw%')...)]
    for the row [p]; [table] holds the rows in the order the query yields
    them; [post] is [None] for a missing post. *)
Definition get_related (any_ilike : list str -> Post -> bool)
    (table : list PostRow) (post : option PostRow) (limit : nat) : list PostRow :=
  match post with
  | None => []
  | Some post =>
      (* Extract keywords from post title and content *)
      let keywords :=
        _extract_keywords
          (post_title (row_post post) ++ lit " " ++ post_content (row_post post)) 4 10 in
      (* Find posts with similar keywords *)
      let related :=
        List.filter
          (fun r => negb (row_id r =? row_id post)%Z
                    && post_published (row_post r)
                    && any_ilike keywords (row_post r))
          table in
      (* Order by relevance (number of keyword matches) *)
      let related :=
        order_by
          (fun a b => (keyword_score keywords (row_post b)
                       <=? keyword_score keywords (row_post a))%nat)
          related in
      take limit related
  end.

End Related.

(** ** A function cached under a key of the caller ([Cache.remember]) *)

Module Remember.
Import PyStr Cache.

(** [Cache.remember]: the function [decorated_function]. *)
Definition remember {S W} (cache : backend S) (key : str) (timeout : option Z)
    (f : pyfun W) (args : list pyval) (kwargs : list (str * pyval))
    : M (S * W) pyval :=
  rv <- on_fst (get cache key) ;;
  if is_not_none rv then ret rv
  else
    rv <- on_snd (fn_call f args kwargs) ;;
    _ <- on_fst (set cache key rv timeout) ;;
    ret rv.

End Remember.

(** ** Further notions *)

Module Notions.
Import PyStr Models Search Cache.

(** Some part of [s] matches the pattern [<[^>]+>]. *)
Fixpoint has_tag (s : str) : bool :=
  match m_tag s with
  | Some _ => true
  | None => match s with
            | [] => false
            | _ :: s' => has_tag s'
            end
  end.

(** [s] holds the character [>]. *)
Definition closes (s : str) : bool := existsb (Ascii.eqb ">") s.

(** A digit of a hexadecimal digest. *)
Definition is_hex (c : ascii) : Prop := In c (lit "0123456789abcdef").

(** [s.endswith(p)] *)
Definition ends_with (p s : str) : bool := starts_with (rev p) (rev s).

(** A matcher whose replacement keeps the characters it replaces, in their
    order. *)
Definition keeps_match (m : matcher) : Prop :=
  forall s n r, m s = Some (n, r) -> sublist (take (S n) s) r.

End Notions.

(** ** The method [Search.search] as a caller gets it

    [Search.search] is decorated with [cache.memoize(timeout=300)], and its
    queries run on the database of [SQLALCHEMY_DATABASE_URI].  Here the method
    is embedded with both: the database decides the test [ilike] and the
    order of titles, and a call is answered from the cache when the cache
    holds an entry under its key. *)

Module SearchMethod.
Import PyStr Models Cache.

(** What the queries leave to the database: [column.ilike(pattern)] and the
    collation of [ORDER BY title]. *)
Record database := {
  db_ilike : str -> str -> bool;
  db_title_leb : str -> str -> bool
}.

(** SQLite's [lower], which folds the letters A-Z and no others. *)
Definition sqlite_lower_char (c : ascii) : ascii :=
  if in_range 65 90 c then ascii_of_N (code c + 32) else c.

(** SQLite's [LIKE] on texts already folded: [%] stands for any run of
    characters, [_] for any one character. *)
Fixpoint sqlite_like (pattern s : str) : bool :=
  match pattern with
  | [] => match s with [] => true | _ :: _ => false end
  | c :: pattern' =>
      if Ascii.eqb c "%" then
        (fix any (s : str) : bool :=
           sqlite_like pattern' s
           || match s with [] => false | _ :: s' => any s' end) s
      else
        match s with
        | [] => false
        | b :: s' => (Ascii.eqb c "_" || Ascii.eqb c b) && sqlite_like pattern' s'
        end
  end.

(** The default database, [sqlite:///webbly.db].  SQLAlchemy renders [ilike]
    for it as [lower(column) LIKE lower(pattern)]; titles are ordered by
    their bytes, which for UTF-8 is the order of the code points. *)
Definition sqlite : database :=
  {| db_ilike column pattern :=
       sqlite_like (map sqlite_lower_char pattern) (map sqlite_lower_char column);
     db_title_leb := str_leb |}.

(** [ilike] on a column that may be NULL: NULL matches nothing. *)
Definition column_ilike (db : database) (col : option str) (pattern : str) : bool :=
  match col with Some s => db_ilike db s pattern | None => false end.

(** The [or_] of the [ilike] tests on a post and on a page. *)
Definition post_found (db : database) (pattern : str) (p : Post) : bool :=
  db_ilike db (post_title p) pattern
  || db_ilike db (post_content p) pattern
  || column_ilike db (post_excerpt p) pattern.

Definition page_found (db : database) (pattern : str) (p : Page) : bool :=
  db_ilike db (page_title p) pattern || db_ilike db (page_content p) pattern.

Definition result : Type := list Post * list Page.

(** The body of [Search.search] on the rows of the two tables.  Rows that
    [ORDER BY] ranks alike keep the order of the table. *)
Definition search_body (db : database) (posts_table : list Post)
    (pages_table : list Page) (query : str) (limit : option nat)
    (include_drafts : bool) : result :=
  match query with
  | [] => ([], [])
  | _ =>
      (* Normalize query *)
      let query := Search._normalize_query query in
      let pattern := lit "%" ++ query ++ lit "%" in
      (* Search posts *)
      let posts_query :=
        if include_drafts then posts_table
        else List.filter post_published posts_table in
      let posts :=
        order_by (fun a b => (post_created_at b <=? post_created_at a)%Z)
          (List.filter (post_found db pattern) posts_query) in
      let posts := limit_to limit posts in
      (* Search pages *)
      let pages_query :=
        if include_drafts then pages_table
        else List.filter page_published pages_table in
      let pages :=
        order_by (fun a b => db_title_leb db (page_title a) (page_title b))
          (List.filter (page_found db pattern) pages_query) in
      let pages := limit_to limit pages in
      (posts, pages)
  end.

(** The arguments of a call [search.search(...)], with a text for the query,
    [None] or a count for the limit and a truth value for [include_drafts]:
    none, one, two or all three of them are passed by position, the others
    by keyword or, for the last two, not at all. *)
Inductive arguments :=
| ByKeyword (query : str) (limit : option (option nat)) (include_drafts : option bool)
| Query (query : str) (limit : option (option nat)) (include_drafts : option bool)
| QueryLimit (query : str) (limit : option nat) (include_drafts : option bool)
| QueryLimitDrafts (query : str) (limit : option nat) (include_drafts : bool).

Definition py_limit (limit : option nat) : pyval :=
  match limit with None => PNone | Some n => PInt (Z.of_nat n) end.

Definition keyword {A} (name : string) (render : A -> pyval) (a : option A)
    : list (str * pyval) :=
  match a with Some v => [(lit name, render v)] | None => [] end.

(** [args] of [decorated_function], which begins with [self]; [self] is given
    by its rendering [str(self)]. *)
Definition positional (self : str) (a : arguments) : list pyval :=
  PStr self ::
  match a with
  | ByKeyword _ _ _ => []
  | Query query _ _ => [PStr query]
  | QueryLimit query limit _ => [PStr query; py_limit limit]
  | QueryLimitDrafts query limit include_drafts =>
      [PStr query; py_limit limit; PBool include_drafts]
  end.

(** [kwargs] of [decorated_function]. *)
Definition keywords (a : arguments) : list (str * pyval) :=
  match a with
  | ByKeyword query limit include_drafts =>
      (lit "query", PStr query) :: keyword "limit" py_limit limit
      ++ keyword "include_drafts" PBool include_drafts
  | Query _ limit include_drafts =>
      keyword "limit" py_limit limit ++ keyword "include_drafts" PBool include_drafts
  | QueryLimit _ _ include_drafts => keyword "include_drafts" PBool include_drafts
  | QueryLimitDrafts _ _ _ => []
  end.

(** The parameters of the body, with the defaults [limit=None] and
    [include_drafts=False]. *)
Definition query_of (a : arguments) : str :=
  match a with
  | ByKeyword q _ _ | Query q _ _ | QueryLimit q _ _ | QueryLimitDrafts q _ _ => q
  end.

Definition limit_of (a : arguments) : option nat :=
  match a with
  | ByKeyword _ l _ | Query _ l _ => match l with Some l => l | None => None end
  | QueryLimit _ l _ | QueryLimitDrafts _ l _ => l
  end.

Definition include_drafts_of (a : arguments) : bool :=
  match a with
  | ByKeyword _ _ d | Query _ _ d | QueryLimit _ _ d =>
      match d with Some d => d | None => false end
  | QueryLimitDrafts _ _ d => d
  end.

(** What [cache.get] and [cache.set] do with the results of the method, on a
    store of type [S]: [get] gives [None] or a result stored before. *)
Record result_cache (S : Type) := {
  rc_get : str -> M S (option result);
  rc_set : str -> result -> option Z -> M S bool
}.
Arguments rc_get {S}.
Arguments rc_set {S}.

(** [Search.search], the function [decorated_function] that
    [cache.memoize(timeout=300)] makes of the body. *)
Definition search {S} (db : database) (cache : result_cache S)
    (request : option (list (str * str))) (self : str)
    (posts_table : list Post) (pages_table : list Page) (a : arguments)
    : M S result :=
  let cache_key :=
    _make_cache_key (lit "search") (lit "memo") (positional self a) (keywords a)
      request in
  rv <- rc_get cache cache_key ;;
  match rv with
  | Some rv => ret rv
  | None =>
      let rv := search_body db posts_table pages_table
                  (query_of a) (limit_of a) (include_drafts_of a) in
      _ <- rc_set cache cache_key rv (Some 300%Z) ;;
      ret rv
  end.

(** A cache for the examples: a dictionary that keeps what it is given. *)
Definition dict_cache : result_cache (gmap str result) :=
  {| rc_get key := fun d => (Return (d !! key), d);
     rc_set key value _ := fun d => (Return true, <[key := value]> d) |}.

End SearchMethod.

(** ** Strings and substitution *)

Section StringFacts.
Import PyStr Search Props.

Ltac each_char c := destruct c as [[] [] [] [] [] [] [] []]; try reflexivity.

Lemma lower_char_idem (c : ascii) : lower_char (lower_char c) = lower_char c.
Proof. each_char c. Qed.

Lemma special_cases (c : ascii) :
  is_special c = false -> is_word c = true \/ is_space c = true \/ c = hyphen.
Proof.
  unfold is_special. destruct (is_word c); [auto|].
  destruct (is_space c); [auto|]. simpl.
  destruct (Ascii.eqb_spec c hyphen); [auto|discriminate].
Qed.

Lemma settled_space : settled space.
Proof. split; reflexivity. Qed.

Lemma sub_special_filter (s : str) :
  sub m_special s = List.filter (fun c => negb (is_special c)) s.
Proof.
  unfold sub. induction s as [|c s IH]; simpl; [reflexivity|].
  destruct (is_special c); simpl; now rewrite IH.
Qed.

Lemma sub_spaces_collapse (s : str) :
  sub_go m_spaces 0 s = collapse false s
  /\ sub_go m_spaces (run is_space s) s = collapse true s.
Proof.
  induction s as [|c s [IH0 IH1]]; simpl; [auto|].
  assert (E : m_spaces (c :: s) =
              if is_space c then Some (run is_space s, [space]) else None).
  { unfold m_spaces. simpl. now destruct (is_space c). }
  rewrite E. destruct (is_space c); simpl.
  - now rewrite IH1.
  - now rewrite IH0.
Qed.

Lemma lstrip_split (s : str) :
  exists w, s = w ++ lstrip s /\ Forall (fun c => is_space c = true) w.
Proof.
  induction s as [|c s (w & E & F)]; simpl.
  - exists []. auto.
  - destruct (is_space c) eqn:Hc.
    + exists (c :: w). simpl. split; [now f_equal | now constructor].
    + exists []. auto.
Qed.

Lemma rstrip_split (s : str) :
  exists w, s = rstrip s ++ w /\ Forall (fun c => is_space c = true) w.
Proof.
  unfold rstrip. destruct (lstrip_split (rev s)) as (w & E & F).
  exists (rev w). split.
  - rewrite <- rev_app_distr, <- E. now rewrite rev_involutive.
  - now apply Forall_rev.
Qed.

Lemma lstrip_head_ok (s : str) : head_ok (lstrip s) = true.
Proof.
  induction s as [|c s IH]; simpl; [reflexivity|].
  destruct (is_space c) eqn:Hc; [exact IH|]. simpl. now rewrite Hc.
Qed.

Lemma lstrip_id (s : str) : head_ok s = true -> lstrip s = s.
Proof. destruct s as [|c s]; simpl; [auto|]. now destruct (is_space c). Qed.

Lemma head_ok_prefix (a b : str) : head_ok (a ++ b) = true -> head_ok a = true.
Proof. now destruct a. Qed.

Lemma tidy_app (a b : str) : tidy (a ++ b) = true -> tidy a = true /\ tidy b = true.
Proof.
  induction a as [|c a IH]; simpl; [auto|].
  intros H. apply andb_prop in H as [H1 H2]. destruct (IH H2) as [Ha Hb].
  split; [|exact Hb]. rewrite Ha, andb_true_r.
  destruct (is_space c); [|reflexivity].
  apply andb_prop in H1 as [H1 H3]. rewrite H1. simpl.
  now apply head_ok_prefix in H3.
Qed.

Lemma collapse_tidy (s : str) :
  tidy (collapse false s) = true
  /\ tidy (collapse true s) = true /\ head_ok (collapse true s) = true.
Proof.
  induction s as [|c s (IH0 & IH1 & IH2)]; simpl; [auto|].
  destruct (is_space c) eqn:Hc; simpl.
  - now rewrite IH1, IH2.
  - now rewrite Hc, IH0.
Qed.

Lemma collapse_id (s : str) : tidy s = true -> collapse false s = s.
Proof.
  induction s as [|c s IH]; simpl; [auto|].
  intros H. apply andb_prop in H as [H1 H2].
  destruct (is_space c) eqn:Hc.
  - apply andb_prop in H1 as [H1 H3]. apply Ascii.eqb_eq in H1. subst c.
    f_equal. destruct s as [|d s]; [reflexivity|].
    simpl in *. destruct (is_space d); [discriminate|].
    specialize (IH H2). simpl in IH. exact IH.
  - f_equal. auto.
Qed.

Lemma collapse_Forall (P : ascii -> Prop) (b : bool) (s : str) :
  P space -> Forall P s -> Forall P (collapse b s).
Proof.
  intros Hs H. revert b. induction H as [|c s Hc _ IH]; intros b; simpl; [constructor|].
  destruct (is_space c); [destruct b|]; auto.
Qed.

Lemma strip_split (s : str) : exists a b, s = a ++ strip s ++ b.
Proof.
  unfold strip. destruct (lstrip_split s) as (a & Ea & _).
  destruct (rstrip_split (lstrip s)) as (b & Eb & _).
  exists a, b. now rewrite <- Eb.
Qed.

Lemma strip_head_ok (s : str) :
  head_ok (strip s) = true /\ head_ok (rev (strip s)) = true.
Proof.
  unfold strip. split.
  - destruct (rstrip_split (lstrip s)) as (w & E & _).
    apply head_ok_prefix with w. rewrite <- E. apply lstrip_head_ok.
  - unfold rstrip. rewrite rev_involutive. apply lstrip_head_ok.
Qed.

Lemma strip_id (s : str) :
  head_ok s = true -> head_ok (rev s) = true -> strip s = s.
Proof.
  intros H1 H2. unfold strip, rstrip.
  rewrite (lstrip_id s H1), (lstrip_id (rev s) H2). apply rev_involutive.
Qed.

(** What [_normalize_query] computes, with the substitutions read off. *)
Lemma normalize_unfold (q : str) :
  _normalize_query q =
  strip (collapse false (List.filter (fun c => negb (is_special c)) (lower q))).
Proof.
  unfold _normalize_query. rewrite sub_special_filter.
  unfold sub. now rewrite (proj1 (sub_spaces_collapse _)).
Qed.

Lemma normalize_settled (q : str) : Forall settled (_normalize_query q).
Proof.
  rewrite normalize_unfold.
  destruct (strip_split (collapse false
              (List.filter (fun c => negb (is_special c)) (lower q)))) as (a & b & E).
  assert (F : Forall settled (collapse false
              (List.filter (fun c => negb (is_special c)) (lower q)))).
  { apply collapse_Forall; [exact settled_space|].
    apply List.Forall_forall. intros c Hc. apply List.filter_In in Hc as [Hc Hs].
    unfold lower in Hc. apply List.in_map_iff in Hc as (d & <- & _).
    split; [apply lower_char_idem|]. now destruct (is_special (lower_char d)). }
  rewrite E in F. apply Forall_app in F as [_ F]. now apply Forall_app in F as [F _].
Qed.

Lemma normalize_tidy (q : str) : tidy (_normalize_query q) = true.
Proof.
  rewrite normalize_unfold.
  destruct (strip_split (collapse false
              (List.filter (fun c => negb (is_special c)) (lower q)))) as (a & b & E).
  pose proof (proj1 (collapse_tidy
              (List.filter (fun c => negb (is_special c)) (lower q)))) as T.
  rewrite E in T. apply tidy_app in T as [_ T]. now apply tidy_app in T as [T _].
Qed.

Lemma normalize_ends (q : str) :
  head_ok (_normalize_query q) = true /\ head_ok (rev (_normalize_query q)) = true.
Proof. rewrite normalize_unfold. apply strip_head_ok. Qed.

Lemma lower_id (s : str) : Forall settled s -> lower s = s.
Proof.
  induction 1 as [|c s [Hc _] _ IH]; simpl; [reflexivity|]. now rewrite Hc, IH.
Qed.

Lemma filter_id (s : str) :
  Forall settled s -> List.filter (fun c => negb (is_special c)) s = s.
Proof.
  induction 1 as [|c s [_ Hc] _ IH]; simpl; [reflexivity|]. now rewrite Hc, IH.
Qed.

(** C8. Normalizing a normalized string changes nothing:
    [_normalize_query (_normalize_query s) = _normalize_query s] for every
    string [s]. *)
Theorem normalize_idempotent (s : str) :
  _normalize_query (_normalize_query s) = _normalize_query s.
Proof.
  rewrite (normalize_unfold (_normalize_query s)).
  rewrite (lower_id _ (normalize_settled s)).
  rewrite (filter_id _ (normalize_settled s)).
  rewrite (collapse_id _ (normalize_tidy s)).
  destruct (normalize_ends s). now apply strip_id.
Qed.

Lemma settled_ascii (c : ascii) :
  lower_char c = c -> is_special c = false -> (code c <? 128)%N = true ->
  in_spec_class c = true \/ c = "_"%char.
Proof.
  each_char c; vm_compute; intros H1 H2 H3;
    first [discriminate | now left | now right].
Qed.

Lemma tidy_spaces (s : str) :
  tidy s = true -> Forall (fun c => is_space c = true -> c = space) s.
Proof.
  induction s as [|c s IH]; simpl; intros H; constructor;
    apply andb_prop in H as [H1 H2]; [|auto].
  intros Hc. rewrite Hc in H1. apply andb_prop in H1 as [H1 _].
  now apply Ascii.eqb_eq.
Qed.

(** C7, as the specification words it, fails: the underscore is a word
    character, so it survives normalization although it lies outside
    [[a-z0-9\s-]]. *)
Lemma normalize_keeps_underscore :
  _normalize_query (lit "a_b") = lit "a_b"
  /\ forallb in_spec_class (_normalize_query (lit "a_b")) = false.
Proof. split; reflexivity. Qed.

(** C7, amended.  For every query the normalized string is the lower case
    query without the characters outside [[\w\s-]], each run of white space
    made one space, trimmed at both ends.  So it is lower case and holds only
    word characters ([\w]: letters, digits and the underscore), single
    spaces and hyphens, and no space at either end.  Its characters below
    U+0080 lie in [[a-z0-9_ -]].  The empty string normalizes to the empty
    string. *)
Theorem normalize_shape (q : str) :
  _normalize_query q
  = strip (collapse false (List.filter (fun c => negb (is_special c)) (lower q)))
  /\ Forall (fun c => lower_char c = c
                   /\ (is_word c = true \/ c = space \/ c = hyphen))
         (_normalize_query q)
  /\ tidy (_normalize_query q) = true
  /\ head_ok (_normalize_query q) = true
  /\ head_ok (rev (_normalize_query q)) = true
  /\ Forall (fun c => (code c <? 128)%N = true ->
                      in_spec_class c = true \/ c = "_"%char)
            (_normalize_query q)
  /\ _normalize_query [] = [].
Proof.
  pose proof (normalize_settled q) as S.
  pose proof (normalize_tidy q) as T.
  destruct (normalize_ends q) as [E1 E2].
  split; [apply normalize_unfold|].
  repeat split; try assumption; try reflexivity.
  - apply tidy_spaces in T.
    rewrite List.Forall_forall in *. intros c Hc.
    destruct (S c Hc) as [L N]. split; [exact L|].
    destruct (special_cases c N) as [W|[W|W]]; auto.
  - rewrite List.Forall_forall in *. intros c Hc H.
    destruct (S c Hc) as [L N]. now apply settled_ascii.
Qed.

End StringFacts.

(** ** The search operations *)

Section SearchFacts.
Import PyStr Models Search Props Scenario.

(** The second and third [replace] of [highlight_query] put back the
    character they take out. *)
Lemma replace_self (c : ascii) (s : str) : replace [c] [c] s = s.
Proof.
  unfold replace, sub. induction s as [|d s IH]; simpl; [reflexivity|].
  destruct (Ascii.eqb_spec c d) as [->|_]; simpl; now rewrite IH.
Qed.

Lemma highlight_query_escape (text : str) :
  replace (lit ">") (lit ">") (replace (lit "<") (lit "<")
    (replace (lit "&") (lit "&amp;") text))
  = replace (lit "&") (lit "&amp;") text.
Proof. unfold lit; simpl. now rewrite !replace_self. Qed.

(** C1. The highlighter is to escape the text before it marks the terms, so
    that no [<] or [>] of the text reaches the output.  The code replaces
    [<] by [<] and [>] by [>]: on the text [<script>alert(1)</script>] with
    the query [alert] the output still holds the tag [<script>]. *)
Theorem highlight_query_keeps_script :
  highlight_query (lit "<script>alert(1)</script>") (lit "alert")
  = lit "<script><mark>alert</mark>(1)</script>"
  /\ contains (lit "<script>")
       (highlight_query (lit "<script>alert(1)</script>") (lit "alert")) = true.
Proof. split; vm_compute; reflexivity. Qed.

(** C2. A query that normalizes to the empty string is to find nothing.  The
    code tests the query for emptiness before it normalizes it: the query
    [!!!] passes the test, normalizes to the empty string, and the pattern
    [%%] matches every published post and page. *)
Theorem search_punctuation_matches_all :
  _normalize_query (lit "!!!") = []
  /\ search [test_post; another_post] [about_page] (lit "!!!") None false
     = ([test_post; another_post], [about_page]).
Proof. split; vm_compute; reflexivity. Qed.

(** C3. The excerpt is to be at most six characters longer than the window
    and its flag is to tell that content was cut off on either side.  For the
    scenario of the specification and of [test_search_excerpts], a window of
    50 around [search term], the code returns 64 characters, the last 61 of
    the content behind [...], and the flag [False]. *)
Theorem get_excerpt_scenario :
  get_excerpt long_content (lit "search term") 50
  = (lit "...ontent that contains the search term somewhere in the middle.", false)
  /\ List.length (fst (get_excerpt long_content (lit "search term") 50)) = 64%nat
  /\ List.length (strip_tags long_content) = 86%nat.
Proof. repeat split; vm_compute; reflexivity. Qed.

(** What [get_excerpt] returns in general: nothing for an empty content or
    query, and else a window [start, end_) of the stripped content, with
    [...] in front when the window starts behind the first character and
    [...] behind when it ends before the last; the flag tells the latter
    only.  The window has at most [length] characters and those of the
    query. *)
Lemma get_excerpt_window (content query : str) (length : nat) :
  content <> [] -> query <> [] ->
  exists start end_,
    (end_ <= List.length (strip_tags content))%nat
    /\ (end_ - start <= length + List.length query)%nat
    /\ get_excerpt content query length
       = ((if (0 <? start)%nat then lit "..." else [])
          ++ slice start end_ (strip_tags content)
          ++ (if (end_ <? List.length (strip_tags content))%nat then lit "..." else []),
          (end_ <? List.length (strip_tags content))%nat).
Proof.
  intros Hc Hq. unfold get_excerpt.
  destruct content as [|c0 content]; [congruence|].
  destruct query as [|q0 query]; [congruence|].
  set (stripped := strip_tags (c0 :: content)).
  set (lq := List.length (q0 :: query)).
  destruct (find _ _) as [pos|].
  - exists (Nat.max 0 (pos - length / 2)),
      (Nat.min (List.length stripped) (pos + lq + length / 2)).
    pose proof (Nat.Div0.mul_div_le length 2).
    repeat split; lia.
  - destruct (Nat.leb_spec (List.length stripped) length) as [L|L].
    + exists 0%nat, (List.length stripped). rewrite !Nat.ltb_irrefl.
      unfold slice. rewrite firstn_all, drop_0. simpl. rewrite app_nil_r.
      repeat split; lia.
    + exists 0%nat, length. rewrite (proj2 (Nat.ltb_lt _ _) L).
      repeat split; lia.
Qed.

(** X14. The excerpt is bounded: for every content, every query and every
    window length that is not negative, the text [get_excerpt] returns has at
    most [length + len(query) + 6] characters. *)
Lemma get_excerpt_length (content query : str) (length : nat) :
  (List.length (fst (get_excerpt content query length))
   <= length + List.length query + 6)%nat.
Proof.
  destruct content as [|c0 content]; [simpl; lia|].
  destruct query as [|q0 query]; [simpl; lia|].
  destruct (get_excerpt_window (c0 :: content) (q0 :: query) length)
    as (start & end_ & H1 & H2 & ->); [discriminate|discriminate|].
  cbn [fst]. rewrite !length_app. unfold slice.
  rewrite length_drop, length_take.
  set (lq := List.length (q0 :: query)) in *.
  set (n := List.length (strip_tags (c0 :: content))) in *.
  destruct (0 <? start)%nat; destruct (end_ <? n)%nat; simpl; lia.
Qed.

Lemma ilike_contains_nil (s : str) : ilike_contains [] s = true.
Proof. now destruct s. Qed.

Lemma filter_all {A : Type} (p : A -> bool) (l : list A) :
  (forall x, p x = true) -> List.filter p l = l.
Proof.
  intros H. induction l as [|x l IH]; simpl; [reflexivity|]. now rewrite H, IH.
Qed.

(** What [search] does with a query that is not empty but normalizes to the
    empty string: the pattern [%%] lets every row through, so the result
    holds every published post and page (every post and page when drafts are
    included), ordered and limited as usual. *)
Lemma search_blank_query (posts_table : list Post) (pages_table : list Page)
    (query : str) (limit : option nat) (include_drafts : bool) :
  query <> [] -> _normalize_query query = [] ->
  search posts_table pages_table query limit include_drafts
  = (limit_to limit
       (order_by (fun a b => (post_created_at b <=? post_created_at a)%Z)
          (if include_drafts then posts_table
           else List.filter post_published posts_table)),
     limit_to limit
       (order_by (fun a b => str_leb (page_title a) (page_title b))
          (if include_drafts then pages_table
           else List.filter page_published pages_table))).
Proof.
  intros Hq Hn. unfold search. destruct query as [|q0 query]; [congruence|].
  rewrite Hn.
  rewrite (filter_all (post_matches []))
    by (intros p; unfold post_matches; now rewrite ilike_contains_nil).
  rewrite (filter_all (page_matches []))
    by (intros p; unfold page_matches; now rewrite ilike_contains_nil).
  reflexivity.
Qed.

Example search_blank_query_example :
  search [test_post; another_post] [about_page] (lit "?!") (Some 1%nat) false
  = ([test_post], [about_page]).
Proof.
  rewrite (search_blank_query [test_post; another_post] [about_page] (lit "?!")
             (Some 1%nat) false); [reflexivity|discriminate|reflexivity].
Qed.

End SearchFacts.

(** ** Stable sorting *)

Section SortMembers.
Import PyStr.
Context {A : Type} (leb : A -> A -> bool).

Lemma insert_by_In (x y : A) (l : list A) :
  In y (insert_by leb x l) <-> y = x \/ In y l.
Proof.
  induction l as [|z l IH]; simpl; [intuition|].
  destruct (leb x z); simpl; [intuition|]. rewrite IH. intuition.
Qed.

Lemma order_by_In (y : A) (l : list A) : In y (order_by leb l) <-> In y l.
Proof.
  induction l as [|x l IH]; simpl; [reflexivity|].
  rewrite insert_by_In, IH. intuition.
Qed.

End SortMembers.

Section StableSort.
Import PyStr Props.
Context {A : Type} (leb : A -> A -> bool) (before : A -> A -> Prop).
Hypothesis leb_total : forall x y, leb x y = false -> leb y x = true.
Hypothesis leb_trans : forall x y z, leb x y = true -> leb y z = true -> leb x z = true.

Lemma insert_by_ranked (x : A) (l : list A) :
  StronglySorted (ranked leb before) l -> Forall (before x) l ->
  StronglySorted (ranked leb before) (insert_by leb x l).
Proof.
  induction 1 as [|y l Hl IH Hy]; intros Hx; simpl.
  - repeat constructor.
  - apply Forall_cons_iff in Hx as [Hxy Hxl].
    destruct (leb x y) eqn:E.
    + constructor; [now constructor|].
      constructor; [now split|].
      rewrite List.Forall_forall in *. intros z Hz.
      split; [|intros _; now apply Hxl].
      apply leb_trans with y; [exact E|]. now apply Hy.
    + constructor; [now apply IH|].
      apply List.Forall_forall. intros z Hz. apply insert_by_In in Hz as [->|Hz].
      * split; [now apply leb_total|]. rewrite E. discriminate.
      * rewrite List.Forall_forall in Hy. now apply Hy.
Qed.

Lemma order_by_ranked (l : list A) :
  StronglySorted before l -> StronglySorted (ranked leb before) (order_by leb l).
Proof.
  induction 1 as [|x l Hl IH Hx]; simpl; [constructor|].
  apply insert_by_ranked; [exact IH|].
  rewrite List.Forall_forall in *. intros y Hy. apply Hx.
  exact (proj1 (order_by_In _ _ _) Hy).
Qed.

End StableSort.

Section SortedFacts.
Context {A : Type}.

Lemma StronglySorted_take (R : A -> A -> Prop) (n : nat) (l : list A) :
  StronglySorted R l -> StronglySorted R (take n l).
Proof.
  intros H. revert n. induction H as [|x l Hl IH Hx]; intros [|n]; simpl;
    try constructor; [apply IH|].
  rewrite List.Forall_forall in *. intros y Hy. apply Hx.
  rewrite <- (take_drop n l). apply in_or_app. now left.
Qed.

Lemma StronglySorted_at (R : A -> A -> Prop) (l : list A) (i j : nat) (x y : A) :
  StronglySorted R l -> (i < j)%nat -> l !! i = Some x -> l !! j = Some y -> R x y.
Proof.
  intros H. revert i j. induction H as [|z l Hl IH Hz]; intros i j Hij Hi Hj.
  - discriminate.
  - destruct j as [|j]; [lia|]. destruct i as [|i]; simpl in *.
    + injection Hi as ->. rewrite List.Forall_forall in Hz. apply Hz.
      apply list_elem_of_In. eapply list_elem_of_lookup_2; eauto.
    + apply (IH i j); [lia|assumption|assumption].
Qed.

Lemma StronglySorted_weaken (R R' : A -> A -> Prop) (l : list A) :
  (forall a b, In a l -> In b l -> R a b -> R' a b) ->
  StronglySorted R l -> StronglySorted R' l.
Proof.
  intros W H. induction H as [|x l Hl IH Hx]; constructor.
  - apply IH. intros a b Ha Hb. apply W; now right.
  - rewrite List.Forall_forall in *. intros y Hy.
    apply W; [now left|now right|now apply Hx].
Qed.

Lemma StronglySorted_snoc (R : A -> A -> Prop) (l : list A) (x : A) :
  StronglySorted R l -> Forall (fun y => R y x) l -> StronglySorted R (l ++ [x]).
Proof.
  induction 1 as [|z l Hl IH Hz]; intros Hx; simpl.
  - repeat constructor.
  - apply Forall_cons_iff in Hx as [Hzx Hlx]. constructor; [now apply IH|].
    apply Forall_app; split; [exact Hz|]. now repeat constructor.
Qed.

Lemma StronglySorted_map {B : Type} (R : B -> B -> Prop) (f : A -> B) (l : list A) :
  StronglySorted R (map f l) -> StronglySorted (fun a b => R (f a) (f b)) l.
Proof.
  induction l as [|x l IH]; simpl; intros H; [constructor|].
  apply StronglySorted_inv in H as [H1 H2]. constructor; [now apply IH|].
  rewrite List.Forall_forall in *. intros y Hy. apply H2. now apply in_map.
Qed.

End SortedFacts.

(** ** The keyword extractor *)

Section KeywordFacts.
Import PyStr Search Props.

Lemma str_eqb_eq (a b : str) : str_eqb a b = true <-> a = b.
Proof. unfold str_eqb. apply bool_decide_eq_true. Qed.

Lemma str_eqb_neq (a b : str) : str_eqb a b = false <-> a <> b.
Proof. unfold str_eqb. apply bool_decide_eq_false. Qed.

Lemma freq_snoc (k w : str) (ws : list str) :
  freq k (ws ++ [w]) = (freq k ws + if str_eqb w k then 1 else 0)%nat.
Proof. induction ws as [|x ws IH]; simpl; [lia|]. rewrite IH. lia. Qed.

Lemma freq_absent (k : str) (ws : list str) : ~ In k ws -> freq k ws = 0%nat.
Proof.
  induction ws as [|x ws IH]; simpl; [reflexivity|]. intros H.
  destruct (str_eqb x k) eqn:E.
  - apply str_eqb_eq in E. tauto.
  - apply IH. tauto.
Qed.

Lemma first_seen_old (k w : str) (ws : list str) :
  In k ws ->
  first_seen k (ws ++ [w]) = first_seen k ws /\ (first_seen k ws < List.length ws)%nat.
Proof.
  induction ws as [|x ws IH]; simpl; [tauto|]. intros H.
  destruct (str_eqb x k) eqn:E; [lia|].
  apply str_eqb_neq in E. destruct H as [H|H]; [contradiction|].
  destruct (IH H). lia.
Qed.

Lemma first_seen_new (w : str) (ws : list str) :
  ~ In w ws -> first_seen w (ws ++ [w]) = List.length ws.
Proof.
  induction ws as [|x ws IH]; simpl; intros H.
  - now rewrite (proj2 (str_eqb_eq w w) eq_refl).
  - destruct (str_eqb x w) eqn:E.
    + apply str_eqb_eq in E. tauto.
    + f_equal. apply IH. tauto.
Qed.

(** [bump] on a word that has an entry, and on one that has none. *)
Lemma bump_old (w : str) (word_freq : list (str * nat)) :
  In w (map fst word_freq) -> map fst (bump w word_freq) = map fst word_freq.
Proof.
  induction word_freq as [|[k v] rest IH]; simpl; [tauto|]. intros H.
  destruct (str_eqb k w) eqn:E; simpl; [reflexivity|].
  apply str_eqb_neq in E. f_equal. apply IH. tauto.
Qed.

Lemma bump_new (w : str) (word_freq : list (str * nat)) :
  ~ In w (map fst word_freq) -> bump w word_freq = word_freq ++ [(w, 1%nat)].
Proof.
  induction word_freq as [|[k v] rest IH]; simpl; [reflexivity|]. intros H.
  destruct (str_eqb k w) eqn:E.
  - apply str_eqb_eq in E. tauto.
  - f_equal. apply IH. tauto.
Qed.

Lemma bump_In (w k : str) (v : nat) (word_freq : list (str * nat)) :
  List.NoDup (map fst word_freq) -> In (k, v) (bump w word_freq) ->
  (k <> w /\ In (k, v) word_freq)
  \/ (k = w /\ ((exists v', In (w, v') word_freq /\ v = S v')
               \/ (~ In w (map fst word_freq) /\ v = 1%nat))).
Proof.
  induction word_freq as [|[k0 v0] rest IH]; simpl; intros N H.
  - destruct H as [H|[]]. injection H as <- <-. right. split; [reflexivity|]. right. tauto.
  - apply List.NoDup_cons_iff in N as [N0 N].
    destruct (str_eqb k0 w) eqn:E.
    + apply str_eqb_eq in E. subst k0. destruct H as [H|H].
      * injection H as <- <-. right. split; [reflexivity|]. left. exists v0. auto.
      * left. split; [|now right]. intros ->. apply N0.
        change w with (fst (w, v)). now apply in_map.
    + apply str_eqb_neq in E. destruct H as [H|H].
      * injection H as <- <-. left. auto.
      * destruct (IH N H) as [[H1 H2]|[H1 [(v' & H2 & H3)|[H2 H3]]]].
        -- left. auto.
        -- right. split; [exact H1|]. left. exists v'. auto.
        -- right. split; [exact H1|]. right. split; [|exact H3]. intros [?|?]; auto.
Qed.

Lemma count_words_snoc (ws : list str) (w : str) :
  count_words (ws ++ [w]) = bump w (count_words ws).
Proof. unfold count_words. now rewrite fold_left_app. Qed.

(** The dictionary after the counting loop: one entry per word, in the order
    the words were first seen, each with the number of its occurrences. *)
Lemma count_words_spec (ws : list str) :
  List.NoDup (map fst (count_words ws))
  /\ (forall k, In k (map fst (count_words ws)) <-> In k ws)
  /\ (forall k v, In (k, v) (count_words ws) -> v = freq k ws)
  /\ StronglySorted (fun a b => (first_seen a ws < first_seen b ws)%nat)
       (map fst (count_words ws)).
Proof.
  induction ws as [|w ws (N & I & C & O)] using rev_ind.
  - simpl. repeat split; try constructor; simpl; tauto.
  - rewrite count_words_snoc.
    destruct (List.in_dec (List.list_eq_dec ascii_dec) w (map fst (count_words ws))) as [Hw|Hw].
    + rewrite (bump_old _ _ Hw). split; [exact N|]. split; [|split].
      * intros k. rewrite I, in_app_iff. simpl. split; [tauto|].
        intros [H|[<-|[]]]; [exact H|]. now apply I.
      * intros k v H. rewrite freq_snoc.
        destruct (bump_In _ _ _ _ N H) as [[H1 H2]|[-> [(v' & H2 & ->)|[H2 _]]]].
        -- rewrite (proj2 (str_eqb_neq w k)) by congruence. rewrite (C _ _ H2). lia.
        -- rewrite (proj2 (str_eqb_eq w w) eq_refl). rewrite (C _ _ H2). lia.
        -- contradiction.
      * eapply StronglySorted_weaken; [|exact O]. intros a b Ha Hb.
        apply I in Ha, Hb.
        destruct (first_seen_old a w ws Ha) as [-> _].
        destruct (first_seen_old b w ws Hb) as [-> _]. auto.
    + rewrite (bump_new _ _ Hw). rewrite map_app. simpl.
      assert (Hw' : ~ In w ws) by (intros H; now apply Hw, I).
      split; [|split; [|split]].
      * apply List.NoDup_app; [exact N|repeat constructor; simpl; tauto|].
        intros x Hx [->|[]]. auto.
      * intros k. rewrite !in_app_iff, I. reflexivity.
      * intros k v H. rewrite freq_snoc. apply in_app_iff in H as [H|[H|[]]].
        -- assert (k <> w).
           { intros ->. apply Hw. change w with (fst (w, v)). now apply in_map. }
           rewrite (proj2 (str_eqb_neq w k)) by congruence. rewrite (C _ _ H). lia.
        -- injection H as <- <-. rewrite (proj2 (str_eqb_eq w w) eq_refl).
           rewrite (freq_absent _ _ Hw'). reflexivity.
      * apply StronglySorted_snoc.
        -- eapply StronglySorted_weaken; [|exact O]. intros a b Ha Hb.
           apply I in Ha, Hb.
           destruct (first_seen_old a w ws Ha) as [-> _].
           destruct (first_seen_old b w ws Hb) as [-> _]. auto.
        -- apply List.Forall_forall. intros a Ha. apply I in Ha.
           destruct (first_seen_old a w ws Ha) as [-> L].
           now rewrite (first_seen_new _ _ Hw').
Qed.

Lemma lookup_map {A B : Type} (f : A -> B) (l : list A) (i : nat) (y : B) :
  map f l !! i = Some y -> exists x, l !! i = Some x /\ y = f x.
Proof.
  revert i. induction l as [|x l IH]; intros [|i]; simpl; try discriminate.
  - intros [= <-]. eauto.
  - apply IH.
Qed.

Lemma lookup_In {A : Type} (l : list A) (i : nat) (x : A) : l !! i = Some x -> In x l.
Proof.
  revert i. induction l as [|y l IH]; intros [|i]; simpl; try discriminate.
  - intros [= ->]. now left.
  - intros H. right. eauto.
Qed.

Lemma take_In {A : Type} (n : nat) (l : list A) (x : A) : In x (take n l) -> In x l.
Proof. intros H. rewrite <- (take_drop n l). apply in_or_app. now left. Qed.

Lemma by_count_desc_total (x y : str * nat) :
  by_count_desc x y = false -> by_count_desc y x = true.
Proof. unfold by_count_desc. intros H. apply Nat.leb_gt in H. apply Nat.leb_le. lia. Qed.

Lemma by_count_desc_trans (x y z : str * nat) :
  by_count_desc x y = true -> by_count_desc y z = true -> by_count_desc x z = true.
Proof. unfold by_count_desc. rewrite !Nat.leb_le. lia. Qed.

Lemma not_stop_word (w : str) : is_stop_word w = false -> ~ In w stop_words.
Proof.
  unfold is_stop_word. intros H Hw.
  assert (existsb (str_eqb w) stop_words = true); [|congruence].
  apply existsb_exists. exists w. split; [exact Hw|]. now apply str_eqb_eq.
Qed.

(** C9. For every text, minimum length and maximum number of keywords the
    extractor returns at most [max_keywords] terms; each of them is one of
    the counted words of the text, has at least [min_length] characters and
    is no stop word; and the terms stand by falling frequency, terms of equal
    frequency in the order in which the text has them first. *)
Theorem extract_keywords_spec (text : str) (min_length max_keywords : nat) :
  let keywords := _extract_keywords text min_length max_keywords in
  let words := kept_words text min_length in
  (List.length keywords <= max_keywords)%nat
  /\ Forall (fun w => In w words
                      /\ (min_length <= List.length w)%nat
                      /\ ~ In w stop_words) keywords
  /\ (forall i j wi wj,
        (i < j)%nat -> keywords !! i = Some wi -> keywords !! j = Some wj ->
        (freq wj words <= freq wi words)%nat
        /\ (freq wi words = freq wj words ->
            (first_seen wi words < first_seen wj words)%nat)).
Proof.
  intros keywords words. subst keywords. unfold _extract_keywords.
  change (List.filter _ (split (lower (strip_tags text)))) with words.
  destruct (count_words_spec words) as (N & I & C & O).
  assert (K : forall w v,
             In (w, v) (take max_keywords (order_by by_count_desc (count_words words))) ->
             In (w, v) (count_words words)).
  { intros w v H. apply take_In in H. exact (proj1 (order_by_In _ _ _) H). }
  split; [|split].
  - rewrite length_map, length_take. lia.
  - apply List.Forall_forall. intros w Hw.
    apply in_map_iff in Hw as ([w' v] & <- & Hw). simpl.
    assert (Hin : In w' words).
    { apply I. change w' with (fst (w', v)). apply in_map. now apply K. }
    split; [exact Hin|]. unfold words, kept_words in Hin.
    apply filter_In in Hin as [_ Hc]. apply andb_prop in Hc as [H1 H2].
    split; [now apply Nat.leb_le|]. apply not_stop_word. now destruct (is_stop_word w').
  - intros i j wi wj Hij Hi Hj.
    apply lookup_map in Hi as ([wi' vi] & Hi & ->).
    apply lookup_map in Hj as ([wj' vj] & Hj & ->). simpl.
    pose proof (C _ _ (K _ _ (lookup_In _ _ _ Hi))) as Ei.
    pose proof (C _ _ (K _ _ (lookup_In _ _ _ Hj))) as Ej.
    assert (R : ranked by_count_desc
                  (fun a b => (first_seen (fst a) words < first_seen (fst b) words)%nat)
                  (wi', vi) (wj', vj)).
    { eapply StronglySorted_at; [|exact Hij|exact Hi|exact Hj].
      apply StronglySorted_take.
      apply order_by_ranked;
        [exact by_count_desc_total|exact by_count_desc_trans|].
      exact (StronglySorted_map
               (fun a b => (first_seen a words < first_seen b words)%nat) fst _ O). }
    destruct R as [R1 R2]. unfold by_count_desc in *. simpl in *.
    apply Nat.leb_le in R1. subst vi vj. split; [exact R1|].
    intros E. apply R2. apply Nat.leb_le. lia.
Qed.

End KeywordFacts.

(** ** The cache *)

Section CacheFacts.
Import PyStr Cache.

(** C5. After the three [set]s of [test_cache_invalidation],
    [invalidate('user:1:*')] is to leave only [user:2:profile].  The files of
    a [FileSystemCache] are named by MD5 digests, in which the pattern never
    occurs (nor does it occur in the key [user:1:profile] itself, the star
    being an ordinary character to [in]): all three entries are still there. *)
Theorem invalidate_scenario_keeps_all :
  fst (invalidation_scenario empty_cache)
  = Return (PStr (lit "data"), PStr (lit "data"), PStr (lit "data"))
  /\ _get_filename (lit "user:1:profile") = lit "24355403b0a6c74ba9af3b3d80ed49bd"
  /\ contains (lit "user:1:*") (lit "user:1:profile") = false.
Proof. repeat split; vm_compute; reflexivity. Qed.

Context {S W : Type} (cache : backend S).
Context (request : option (list (str * str))) (timeout : option Z).

Lemma memoize_cached (f : pyfun W) :
  memoize cache request timeout f = cached cache request timeout (lit "memo") f.
Proof. reflexivity. Qed.

Lemma cached_get_raises (key_prefix : str) (f : pyfun W) args kwargs s w e s1 :
  get cache (_make_cache_key (fn_name f) key_prefix args kwargs request) s = (Raise e, s1) ->
  cached cache request timeout key_prefix f args kwargs (s, w) = (Raise e, (s1, w)).
Proof.
  intros H. unfold cached, bind, on_fst. simpl. now rewrite H.
Qed.


Lemma cached_miss (key_prefix : str) (f : pyfun W) args kwargs s w s1 :
  get cache (_make_cache_key (fn_name f) key_prefix args kwargs request) s
    = (Return PNone, s1) ->
  cached cache request timeout key_prefix f args kwargs (s, w)
  = run_and_store cache (_make_cache_key (fn_name f) key_prefix args kwargs request)
      timeout f args kwargs (s1, w).
Proof.
  intros H. unfold cached, bind at 1, on_fst at 1. simpl. now rewrite H.
Qed.


(** C6, amended.  [memoize] has no handler for an error of the backend.  When
    [get] raises, the memoized call raises the same error and the wrapped
    function is not run; when [get] finds nothing, the function returns and
    [set] raises, the call raises that error in place of the result. *)
Theorem memoize_backend_error (f : pyfun W) args kwargs s w :
  let key := _make_cache_key (fn_name f) (lit "memo") args kwargs request in
  (forall e s1,
      get cache key s = (Raise e, s1) ->
      memoize cache request timeout f args kwargs (s, w) = (Raise e, (s1, w)))
  /\ (forall e s1 v w1 s2,
        get cache key s = (Return PNone, s1) ->
        fn_call f args kwargs w = (Return v, w1) ->
        set cache key v timeout s1 = (Raise e, s2) ->
        memoize cache request timeout f args kwargs (s, w) = (Raise e, (s2, w1))).
Proof.
  intros key. split.
  - intros e s1 H. rewrite memoize_cached. now apply cached_get_raises.
  - intros e s1 v w1 s2 Hg Hf Hs. rewrite memoize_cached.
    rewrite (cached_miss _ _ _ _ _ _ _ Hg).
    unfold run_and_store, bind, on_snd, on_fst. cbn [fst snd].
    rewrite Hf. cbn [fst snd]. fold key. now rewrite Hs.
Qed.


End CacheFacts.

Section CacheWitnesses.
Import PyStr Cache.


(** [FileSystemCache]: a [get] that follows a [set] with a timeout that is
    not negative, the clock unchanged, returns the value that was set. *)
Lemma fs_get_after_set (key : str) (value : pyval) (timeout : option Z) (c : fs_cache) :
  (0 <= match timeout with Some t => t | None => default_timeout end)%Z ->
  fst (get FileSystemCache key (snd (set FileSystemCache key value timeout c)))
  = Return value.
Proof.
  intros H. unfold get, set. simpl. unfold fs_get, fs_set. simpl.
  rewrite lookup_insert_eq. simpl. unfold _normalize_timeout.
  destruct (Z.eqb_spec (match timeout with Some t => t | None => default_timeout end) 0).
  - reflexivity.
  - rewrite (proj2 (Z.leb_le _ _)) by lia. now rewrite orb_true_r.
Qed.

Example fs_get_after_set_example :
  fst (get FileSystemCache (lit "test_key")
         (snd (set FileSystemCache (lit "test_key") (PStr (lit "test_value")) None
                 empty_cache)))
  = Return (PStr (lit "test_value")).
Proof. apply fs_get_after_set. unfold default_timeout. lia. Qed.

(** C6, as stated, fails: with a backend whose [get] raises, the memoized
    call raises and the function is not run; with one whose [set] raises, the
    function runs once and the call raises all the same. *)
Lemma memoize_propagates_backend_error :
  memoize (flaky false true) None (Some 300%Z) (counting (lit "f") (PInt 42))
    [PInt 1] [] (tt, 0%nat)
  = (Raise BackendUnavailable, (tt, 0%nat))
  /\ memoize (flaky true false) None (Some 300%Z) (counting (lit "f") (PInt 42))
       [PInt 1] [] (tt, 0%nat)
     = (Raise BackendUnavailable, (tt, 1%nat)).
Proof. split; reflexivity. Qed.

Lemma memoize_backend_error_witness :
  memoize (flaky false true) None (Some 300%Z) (counting (lit "f") (PInt 42))
    [PInt 1] [] (tt, 0%nat)
  = (Raise BackendUnavailable, (tt, 0%nat)).
Proof.
  apply (proj1 (memoize_backend_error (flaky false true) None (Some 300%Z)
                  (counting (lit "f") (PInt 42)) [PInt 1] [] tt 0%nat)).
  reflexivity.
Defined.


End CacheWitnesses.

(** ** Cache keys *)

Section SortOneChange.
Import PyStr.
Context {A : Type} (leb : A -> A -> bool) (x x' : A).
Hypothesis leb_l : forall z, leb x z = leb x' z.
Hypothesis leb_r : forall z, leb z x = leb z x'.

Lemma insert_by_changed (l : list A) :
  exists l1 l2, insert_by leb x l = l1 ++ x :: l2 /\ insert_by leb x' l = l1 ++ x' :: l2.
Proof.
  induction l as [|y l (l1 & l2 & E1 & E2)]; simpl.
  - exists [], []. auto.
  - rewrite <- leb_l. destruct (leb x y).
    + exists [], (y :: l). auto.
    + exists (y :: l1), l2. simpl. now rewrite E1, E2.
Qed.

Lemma insert_by_beside (z : A) (l1 l2 : list A) :
  exists k1 k2,
    insert_by leb z (l1 ++ x :: l2) = k1 ++ x :: k2
    /\ insert_by leb z (l1 ++ x' :: l2) = k1 ++ x' :: k2.
Proof.
  induction l1 as [|y l1 (k1 & k2 & E1 & E2)]; simpl.
  - rewrite <- leb_r. destruct (leb z x).
    + exists [z], l2. auto.
    + exists [], (insert_by leb z l2). auto.
  - destruct (leb z y).
    + exists (z :: y :: l1), l2. auto.
    + exists (y :: k1), k2. simpl. now rewrite E1, E2.
Qed.

Lemma order_by_changed (l1 l2 : list A) :
  exists k1 k2,
    order_by leb (l1 ++ x :: l2) = k1 ++ x :: k2
    /\ order_by leb (l1 ++ x' :: l2) = k1 ++ x' :: k2.
Proof.
  induction l1 as [|y l1 (k1 & k2 & E1 & E2)]; simpl.
  - apply insert_by_changed.
  - rewrite E1, E2. apply insert_by_beside.
Qed.

End SortOneChange.

Section KeyFacts.
Import PyStr Cache Props.
Local Open Scope Z_scope.

Lemma join_cons (sep p : str) (l : list str) :
  l <> [] -> join sep (p :: l) = p ++ sep ++ join sep l.
Proof. destruct l; [congruence|reflexivity]. Qed.

Lemma join_around (sep : str) (P : list str) (s : str) (Q : list str) :
  join sep (P ++ s :: Q)
  = concat (map (fun p => p ++ sep) P) ++ s
    ++ match Q with [] => [] | _ :: _ => sep ++ join sep Q end.
Proof.
  induction P as [|p P IH].
  - simpl. destruct Q; [now rewrite app_nil_r | reflexivity].
  - change ((p :: P) ++ s :: Q) with (p :: (P ++ s :: Q)).
    rewrite join_cons by (now destruct P). rewrite IH.
    change (map (fun p => p ++ sep) (p :: P))
      with ((p ++ sep) :: map (fun p => p ++ sep) P).
    simpl concat. now rewrite <- !app_assoc.
Qed.

Lemma join_middle (sep : str) (P : list str) (s s' : str) (Q : list str) :
  join sep (P ++ s :: Q) = join sep (P ++ s' :: Q) -> s = s'.
Proof.
  rewrite !join_around. intros H.
  apply app_inv_head in H. now apply app_inv_tail in H.
Qed.

Lemma hex_digit_inj (a b : Z) :
  0 <= a < 16 -> 0 <= b < 16 -> Md5.hex_digit a = Md5.hex_digit b -> a = b.
Proof.
  intros Ha Hb.
  assert (Ea : In a [0;1;2;3;4;5;6;7;8;9;10;11;12;13;14;15]) by (simpl; lia).
  assert (Eb : In b [0;1;2;3;4;5;6;7;8;9;10;11;12;13;14;15]) by (simpl; lia).
  simpl in Ea, Eb.
  repeat (destruct Ea as [<-|Ea]; [
    repeat (destruct Eb as [<-|Eb]; [vm_compute; first [reflexivity | discriminate]|]);
    contradiction|]).
  contradiction.
Qed.

Lemma hex_inj (bs bs' : list Z) :
  Forall is_byte bs -> Forall is_byte bs' -> Md5.hex bs = Md5.hex bs' -> bs = bs'.
Proof.
  intros H. revert bs'. induction H as [|b bs Hb _ IH]; intros bs' H' E.
  - destruct bs'; [reflexivity|discriminate].
  - destruct H' as [|b' bs' Hb' H']; [discriminate|].
    simpl in E. injection E as E1 E2 E3. unfold is_byte in *.
    apply hex_digit_inj in E1;
      [|split; [apply Z.div_pos|apply Z.div_lt_upper_bound]; lia
       |split; [apply Z.div_pos|apply Z.div_lt_upper_bound]; lia].
    apply hex_digit_inj in E2; [|apply Z.mod_pos_bound; lia|apply Z.mod_pos_bound; lia].
    f_equal; [|now apply IH].
    rewrite (Z.div_mod b 16), (Z.div_mod b' 16) by lia. now rewrite E1, E2.
Qed.

Lemma le_bytes_bytes (n : nat) (x : Z) : Forall is_byte (Md5.le_bytes n x).
Proof.
  revert x. induction n as [|n IH]; intros x; simpl; constructor; [|apply IH].
  unfold is_byte. change 255 with (Z.ones 8). rewrite Z.land_ones by lia.
  apply Z.mod_pos_bound. reflexivity.
Qed.

Lemma digest_bytes (m : list Z) : Forall is_byte (Md5.digest m).
Proof. unfold Md5.digest. rewrite !Forall_app. repeat split; apply le_bytes_bytes. Qed.

Lemma encode_char_inj (c c' : ascii) (r r' : list Z) :
  Md5.encode_char c ++ r = Md5.encode_char c' ++ r' -> c = c' /\ r = r'.
Proof.
  unfold Md5.encode_char.
  assert (B : forall d, 0 <= Z.of_N (code d) < 256).
  { intros d. unfold code. pose proof (N_ascii_bounded d). lia. }
  assert (I : forall d d', Z.of_N (code d) = Z.of_N (code d') -> d = d').
  { intros d d' E. apply N2Z.inj in E. unfold code in E.
    rewrite <- (ascii_N_embedding d), <- (ascii_N_embedding d'). now rewrite E. }
  pose proof (B c) as Bc. pose proof (B c') as Bc'.
  destruct (Z.ltb_spec (Z.of_N (code c)) 128);
    destruct (Z.ltb_spec (Z.of_N (code c')) 128); simpl; intros E.
  - injection E as E1 E2. auto.
  - injection E as E1 E2.
    assert (0 <= Z.of_N (code c') / 64) by (apply Z.div_pos; lia). lia.
  - injection E as E1 E2.
    assert (0 <= Z.of_N (code c) / 64) by (apply Z.div_pos; lia). lia.
  - injection E as E1 E2 E3. split; [|exact E3]. apply I.
    rewrite (Z.div_mod (Z.of_N (code c)) 64), (Z.div_mod (Z.of_N (code c')) 64) by lia.
    lia.
Qed.

Lemma encode_inj (s s' : str) : Md5.encode s = Md5.encode s' -> s = s'.
Proof.
  revert s'. induction s as [|c s IH]; intros [|c' s'] E; simpl in E.
  - reflexivity.
  - unfold Md5.encode_char in E. destruct (_ <? 128); discriminate.
  - unfold Md5.encode_char in E. destruct (_ <? 128); discriminate.
  - apply encode_char_inj in E as [-> E]. f_equal. now apply IH.
Qed.

(** Two texts have one hexadecimal digest exactly when MD5 gives their
    encodings one digest. *)
Lemma hexdigest_eq (s s' : str) :
  Md5.hexdigest s = Md5.hexdigest s'
  <-> Md5.digest (Md5.encode s) = Md5.digest (Md5.encode s').
Proof.
  unfold Md5.hexdigest. split; [|now intros ->].
  intros E. apply hex_inj in E; [exact E|apply digest_bytes|apply digest_bytes].
Qed.

(** When the texts of two calls agree exactly if [P] holds, their digests
    agree exactly if [P] holds or MD5 collides on the two texts. *)
Lemma hexdigest_cases (s s' : str) (P : Prop) :
  (s = s' <-> P) ->
  (Md5.hexdigest s = Md5.hexdigest s' <-> P \/ md5_collide s s').
Proof.
  intros H. rewrite hexdigest_eq. split.
  - intros E. destruct (List.list_eq_dec ascii_dec s s') as [D|D].
    + left. now apply H.
    + right. now split.
  - intros [HP|[_ E]]; [|exact E]. apply H in HP. now rewrite HP.
Qed.

Lemma sorted_items_changed {V : Type} (k : str) (v v' : V) (l1 l2 : list (str * V)) :
  exists s1 s2,
    sorted_items (l1 ++ (k, v) :: l2) = s1 ++ (k, v) :: s2
    /\ sorted_items (l1 ++ (k, v') :: l2) = s1 ++ (k, v') :: s2.
Proof. unfold sorted_items. now apply order_by_changed. Qed.

(** The texts of two calls that differ in one positional argument, in the
    value of one keyword argument, in the value of one request parameter. *)
Lemma key_text_arg (f_name key_prefix : str) a1 x y a2 kwargs request :
  key_text f_name key_prefix (a1 ++ x :: a2) kwargs request
  = key_text f_name key_prefix (a1 ++ y :: a2) kwargs request
  <-> py_str x = py_str y.
Proof.
  unfold key_text, key_parts. rewrite !map_app. simpl map. split.
  - intros E. rewrite <- !app_assoc in E.
    rewrite !(app_assoc [key_prefix; f_name]) in E. simpl app in E.
    change (key_prefix :: f_name :: map py_str a1 ++ ?r)
      with ((key_prefix :: f_name :: map py_str a1) ++ r) in E.
    rewrite <- !app_comm_cons in E.
    exact (join_middle _ (key_prefix :: f_name :: map py_str a1) _ _ _ E).
  - now intros ->.
Qed.

Lemma key_text_kwarg (f_name key_prefix : str) args k1 k v v' k2 request :
  key_text f_name key_prefix args (k1 ++ (k, v) :: k2) request
  = key_text f_name key_prefix args (k1 ++ (k, v') :: k2) request
  <-> py_str v = py_str v'.
Proof.
  destruct (sorted_items_changed k v v' k1 k2) as (s1 & s2 & E1 & E2).
  unfold key_text, key_parts. rewrite E1, E2, !map_app. simpl map. split.
  - intros E. rewrite !app_assoc in E. rewrite <- !app_assoc in E.
    rewrite !(app_assoc [key_prefix; f_name]) in E.
    rewrite !(app_assoc _ (map _ s1)) in E.
    apply join_middle in E. simpl in E.
    apply app_inv_head in E. now injection E.
  - now intros ->.
Qed.

Lemma key_text_param (f_name key_prefix : str) args kwargs r1 k v v' r2 :
  key_text f_name key_prefix args kwargs (Some (r1 ++ (k, v) :: r2))
  = key_text f_name key_prefix args kwargs (Some (r1 ++ (k, v') :: r2))
  <-> v = v'.
Proof.
  destruct (sorted_items_changed k v v' r1 r2) as (s1 & s2 & E1 & E2).
  unfold key_text, key_parts. rewrite E1, E2, !map_app. simpl map. split.
  - intros E. rewrite !app_assoc in E.
    apply join_middle in E. simpl in E.
    apply app_inv_head in E. now injection E.
  - now intros ->.
Qed.

(** An underscore inside a part reads like the one between two parts. *)
Lemma join_split (sep : str) (P : list str) (a b : str) (Q : list str) :
  join sep (P ++ (a ++ sep ++ b) :: Q) = join sep (P ++ a :: b :: Q).
Proof.
  assert (E : join sep (b :: Q)
              = b ++ match Q with [] => [] | _ :: _ => sep ++ join sep Q end)
    by exact (join_around sep [] b Q).
  etransitivity; [apply join_around|].
  symmetry. etransitivity; [apply join_around|].
  rewrite E. now rewrite <- !app_assoc.
Qed.

(** C4, as stated, fails before any hashing: the integer 1 and the string
    ['1'] are different arguments with the same rendering, so the two calls
    hash the same text and get the same key.  So do a keyword argument
    [a:b] with the value [c] and a keyword argument [a] with the value
    [b:c], and the one argument [a_b] and the two arguments [a] and [b]. *)
Lemma make_cache_key_same_rendering :
  PInt 1 <> PStr (lit "1")
  /\ join (lit "_") (key_parts (lit "f") (lit "memo") [PInt 1] [] None)
     = join (lit "_") (key_parts (lit "f") (lit "memo") [PStr (lit "1")] [] None)
  /\ _make_cache_key (lit "f") (lit "memo") [PInt 1] [] None
     = _make_cache_key (lit "f") (lit "memo") [PStr (lit "1")] [] None
  /\ _make_cache_key (lit "f") (lit "memo") [] [(lit "a:b", PStr (lit "c"))] None
     = _make_cache_key (lit "f") (lit "memo") [] [(lit "a", PStr (lit "b:c"))] None
  /\ _make_cache_key (lit "f") (lit "memo") [PStr (lit "a_b")] [] None
     = _make_cache_key (lit "f") (lit "memo") [PStr (lit "a"); PStr (lit "b")] [] None.
Proof. split; [discriminate|repeat split; reflexivity]. Qed.

(** C4, amended.  The key is the MD5 digest of the text of the call, so two
    calls, whatever they are, have the same key exactly when MD5 gives their
    two texts the same digest; and the text reads the arguments through [str]
    only, so arguments with the same renderings give the same key.  Two
    calls that differ in one positional argument, in the value of one
    keyword argument or in the value of one request parameter have the same
    key exactly when the two values have the same rendering or MD5 collides
    on the texts of these two calls.  Other changes can leave the text, and
    with it the key, as it was: a keyword argument renamed together with its
    value ([k:a] with the value [b] against [k] with the value [a:b]), and
    one argument split in two at an underscore. *)
Theorem make_cache_key_one_change (f_name key_prefix : str) :
  (forall args kwargs request f_name' key_prefix' args' kwargs' request',
      _make_cache_key f_name key_prefix args kwargs request
      = _make_cache_key f_name' key_prefix' args' kwargs' request'
      <-> Md5.digest (Md5.encode (key_text f_name key_prefix args kwargs request))
          = Md5.digest (Md5.encode (key_text f_name' key_prefix' args' kwargs' request')))
  /\ (forall args args' kwargs request,
        map py_str args = map py_str args' ->
        _make_cache_key f_name key_prefix args kwargs request
        = _make_cache_key f_name key_prefix args' kwargs request)
  /\ (forall a1 x y a2 kwargs request,
        _make_cache_key f_name key_prefix (a1 ++ x :: a2) kwargs request
        = _make_cache_key f_name key_prefix (a1 ++ y :: a2) kwargs request
        <-> py_str x = py_str y
            \/ md5_collide (key_text f_name key_prefix (a1 ++ x :: a2) kwargs request)
                           (key_text f_name key_prefix (a1 ++ y :: a2) kwargs request))
  /\ (forall args k1 k v v' k2 request,
        _make_cache_key f_name key_prefix args (k1 ++ (k, v) :: k2) request
        = _make_cache_key f_name key_prefix args (k1 ++ (k, v') :: k2) request
        <-> py_str v = py_str v'
            \/ md5_collide (key_text f_name key_prefix args (k1 ++ (k, v) :: k2) request)
                           (key_text f_name key_prefix args (k1 ++ (k, v') :: k2) request))
  /\ (forall args kwargs r1 k v v' r2,
        _make_cache_key f_name key_prefix args kwargs (Some (r1 ++ (k, v) :: r2))
        = _make_cache_key f_name key_prefix args kwargs (Some (r1 ++ (k, v') :: r2))
        <-> v = v'
            \/ md5_collide
                 (key_text f_name key_prefix args kwargs (Some (r1 ++ (k, v) :: r2)))
                 (key_text f_name key_prefix args kwargs (Some (r1 ++ (k, v') :: r2))))
  /\ (forall args k a b request,
        _make_cache_key f_name key_prefix args [(k ++ lit ":" ++ a, PStr b)] request
        = _make_cache_key f_name key_prefix args [(k, PStr (a ++ lit ":" ++ b))] request)
  /\ (forall args a b kwargs request,
        _make_cache_key f_name key_prefix (args ++ [PStr (a ++ lit "_" ++ b)]) kwargs request
        = _make_cache_key f_name key_prefix (args ++ [PStr a; PStr b]) kwargs request).
Proof.
  split; [|split; [|split; [|split; [|split; [|split]]]]].
  - intros. apply hexdigest_eq.
  - intros args args' kwargs request E. unfold _make_cache_key, key_parts.
    now rewrite E.
  - intros. apply hexdigest_cases, key_text_arg.
  - intros. apply hexdigest_cases, key_text_kwarg.
  - intros. apply hexdigest_cases, key_text_param.
  - intros args k a b request. unfold _make_cache_key, key_parts, sorted_items.
    simpl order_by. simpl map. now rewrite <- !app_assoc.
  - intros args a b kwargs request. unfold _make_cache_key, key_parts.
    rewrite !map_app. simpl map. f_equal.
    rewrite <- !app_assoc. rewrite !(app_assoc [key_prefix; f_name]).
    simpl app.
    change (key_prefix :: f_name :: map py_str args ++ ?r)
      with ((key_prefix :: f_name :: map py_str args) ++ r).
    rewrite <- !app_comm_cons.
    exact (join_split (lit "_") (key_prefix :: f_name :: map py_str args) a b _).
Qed.

Lemma make_cache_key_one_change_witness :
  py_str (PInt 1) = py_str (PStr (lit "1"))
  \/ md5_collide (key_text (lit "f") (lit "memo") ([] ++ [PInt 1]) [] None)
                 (key_text (lit "f") (lit "memo") ([] ++ [PStr (lit "1")]) [] None).
Proof.
  apply (proj1 (proj1 (proj2 (proj2 (make_cache_key_one_change (lit "f") (lit "memo"))))
                  [] (PInt 1) (PStr (lit "1")) [] [] None)).
  reflexivity.
Defined.

End KeyFacts.

(** ** Markup *)

Section TagFacts.
Import PyStr Search Props Notions.
Local Opaque Ascii.eqb.

Lemma closes_cons (d : ascii) (s : str) :
  closes (d :: s) = Ascii.eqb ">" d || closes s.
Proof. reflexivity. Qed.

Lemma not_gt_closes (d : ascii) : not_gt d = negb (Ascii.eqb ">" d).
Proof. unfold not_gt. now rewrite Ascii.eqb_sym. Qed.

(** Behind the longest run without [>] the text ends, or a [>] stands. *)
Lemma drop_run_closes (s : str) :
  (closes s = false -> drop (run not_gt s) s = [])
  /\ (closes s = true -> exists r, drop (run not_gt s) s = ">"%char :: r).
Proof.
  induction s as [|d s [IH1 IH2]]; simpl; [split; [reflexivity|discriminate]|].
  rewrite not_gt_closes. destruct (Ascii.eqb_spec ">"%char d) as [<-|N]; simpl.
  - split; [discriminate|]. intros _. now exists s.
  - split; assumption.
Qed.

Lemma m_tag_empty (s : str) (n : nat) (r : str) : m_tag s = Some (n, r) -> r = [].
Proof.
  unfold m_tag. destruct s as [|c s]; [discriminate|].
  destruct (Ascii.eqb c "<"); [|discriminate].
  destruct (run not_gt s); [discriminate|].
  destruct (drop _ s); [discriminate|]. now intros [= _ <-].
Qed.

Lemma m_tag_other (c : ascii) (s : str) : c <> "<"%char -> m_tag (c :: s) = None.
Proof.
  intros N. unfold m_tag. destruct (Ascii.eqb_spec c "<"); [contradiction|reflexivity].
Qed.

Lemma m_tag_unclosed (s : str) : closes s = false -> m_tag ("<"%char :: s) = None.
Proof.
  intros H. unfold m_tag. simpl.
  destruct (run not_gt s) as [|n] eqn:R; [reflexivity|].
  pose proof (proj1 (drop_run_closes s) H) as D. rewrite R in D. now rewrite D.
Qed.

Lemma m_tag_None_cases (s : str) :
  m_tag ("<"%char :: s) = None ->
  s = [] \/ (exists r, s = ">"%char :: r) \/ closes s = false.
Proof.
  destruct s as [|d r]; [auto|]. intros H. right.
  destruct (closes (d :: r)) eqn:C; [|auto]. left.
  destruct (proj2 (drop_run_closes (d :: r)) C) as (r' & D).
  unfold m_tag in H. simpl in H, D. rewrite not_gt_closes in H, D.
  destruct (Ascii.eqb_spec ">"%char d) as [<-|N]; simpl in *; [now exists r|].
  now rewrite D in H.
Qed.

Lemma sub_go_here (m : matcher) (c : ascii) (s : str) :
  sub_go m 0 (c :: s)
  = match m (c :: s) with
    | Some (n, r) => r ++ sub_go m n s
    | None => c :: sub_go m 0 s
    end.
Proof. reflexivity. Qed.

Lemma sub_go_skip (m : matcher) (k : nat) (c : ascii) (s : str) :
  sub_go m (S k) (c :: s) = sub_go m k s.
Proof. reflexivity. Qed.

(** Stripping adds no [>]. *)
Lemma closes_sub_go (k : nat) (s : str) :
  closes (sub_go m_tag k s) = true -> closes s = true.
Proof.
  revert k. induction s as [|c s IH]; intros k; [now destruct k|].
  rewrite closes_cons. destruct k as [|k].
  - rewrite sub_go_here. destruct (m_tag (c :: s)) as [[n r]|] eqn:E.
    + rewrite (m_tag_empty _ _ _ E). simpl app. intros H.
      rewrite (IH _ H). apply orb_true_r.
    + rewrite closes_cons. destruct (Ascii.eqb ">" c); [reflexivity|]. apply IH.
  - rewrite sub_go_skip. intros H. rewrite (IH _ H). apply orb_true_r.
Qed.

Lemma has_tag_sub_go (k : nat) (s : str) : has_tag (sub_go m_tag k s) = false.
Proof.
  revert k. induction s as [|c s IH]; intros k; [now destruct k|].
  destruct k as [|k]; [rewrite sub_go_here|rewrite sub_go_skip; apply IH].
  destruct (m_tag (c :: s)) as [[n r]|] eqn:E.
  - rewrite (m_tag_empty _ _ _ E). apply IH.
  - assert (T : m_tag (c :: sub_go m_tag 0 s) = None).
    { destruct (ascii_dec c "<") as [->|N]; [|now apply m_tag_other].
      destruct (m_tag_None_cases _ E) as [->|[(r & ->)|C]].
      - reflexivity.
      - rewrite sub_go_here. reflexivity.
      - apply m_tag_unclosed. destruct (closes (sub_go m_tag 0 s)) eqn:C'; [|reflexivity].
        apply closes_sub_go in C'. congruence. }
    change (has_tag (c :: sub_go m_tag 0 s))
      with (match m_tag (c :: sub_go m_tag 0 s) with
            | Some _ => true
            | None => has_tag (sub_go m_tag 0 s)
            end).
    rewrite T. apply IH.
Qed.

Lemma sub_tag_id (s : str) : has_tag s = false -> sub m_tag s = s.
Proof.
  unfold sub. induction s as [|c s IH]; [reflexivity|].
  change (has_tag (c :: s))
    with (match m_tag (c :: s) with Some _ => true | None => has_tag s end).
  rewrite sub_go_here. destruct (m_tag (c :: s)); [discriminate|].
  intros H. now rewrite IH.
Qed.

(** A [<], a character other than [>] and, somewhere behind, a [>]: such a
    text has a tag. *)
Lemma has_tag_complete (a : str) (d : ascii) (b c : str) :
  d <> ">"%char -> has_tag (a ++ "<"%char :: d :: b ++ ">"%char :: c) = true.
Proof.
  intros N. induction a as [|x a IH].
  - simpl app.
    destruct (m_tag ("<"%char :: d :: b ++ ">"%char :: c)) eqn:E.
    + change (has_tag ("<"%char :: d :: b ++ ">"%char :: c))
        with (match m_tag ("<"%char :: d :: b ++ ">"%char :: c) with
              | Some _ => true
              | None => has_tag (d :: b ++ ">"%char :: c)
              end).
      now rewrite E.
    + apply m_tag_None_cases in E as [E|[(r & E)|E]]; [discriminate|congruence|].
      change (d :: b ++ ">"%char :: c) with ((d :: b) ++ ">"%char :: c) in E.
      unfold closes in E. rewrite existsb_app in E. simpl in E.
      now rewrite orb_true_r in E.
  - change ((x :: a) ++ "<"%char :: d :: b ++ ">"%char :: c)
      with (x :: (a ++ "<"%char :: d :: b ++ ">"%char :: c)).
    change (has_tag (x :: (a ++ "<"%char :: d :: b ++ ">"%char :: c)))
      with (match m_tag (x :: (a ++ "<"%char :: d :: b ++ ">"%char :: c)) with
            | Some _ => true
            | None => has_tag (a ++ "<"%char :: d :: b ++ ">"%char :: c)
            end).
    rewrite IH. now destruct (m_tag _).
Qed.

(** X1. What [strip_tags] returns holds no tag any more, no part of it
    matches [<[^>]+>], and stripping it again changes nothing. *)
Theorem strip_tags_no_tag (content : str) :
  has_tag (strip_tags content) = false
  /\ strip_tags (strip_tags content) = strip_tags content.
Proof.
  assert (H : has_tag (strip_tags content) = false) by apply has_tag_sub_go.
  split; [exact H|]. now apply sub_tag_id.
Qed.

End TagFacts.

(** ** Highlighting and excerpts *)

Section HighlightFacts.
Import PyStr Search Props Notions.

(** A substitution whose replacements keep what they replace only inserts. *)
Lemma sub_go_sublist (m : matcher) (k : nat) (s : str) :
  keeps_match m -> sublist (drop k s) (sub_go m k s).
Proof.
  intros K. revert k. induction s as [|c s IH]; intros k.
  - destruct k; constructor.
  - destruct k as [|k]; [|rewrite sub_go_skip; apply IH].
    rewrite sub_go_here, drop_0. destruct (m (c :: s)) as [[n r]|] eqn:E.
    + rewrite <- (take_drop (S n) (c :: s)). apply sublist_app; [now apply K|].
      apply IH.
    + apply sublist_skip. specialize (IH 0%nat). now rewrite drop_0 in IH.
Qed.

Lemma starts_with_take (p s : str) :
  starts_with p s = true -> take (List.length p) s = p.
Proof.
  revert s. induction p as [|a p IH]; intros [|b s]; simpl; try easy.
  intros H. apply andb_prop in H as [H1 H2]. apply Ascii.eqb_eq in H1. subst b.
  f_equal. now apply IH.
Qed.

Lemma keeps_match_literal (old new : str) :
  sublist old new -> keeps_match (m_literal old new).
Proof.
  intros H s n r. unfold m_literal. destruct old as [|a old]; [discriminate|].
  destruct (starts_with (a :: old) s) eqn:E; [|discriminate].
  intros [= <- <-]. apply starts_with_take in E. simpl List.length in E.
  now rewrite E.
Qed.

Lemma keeps_match_mark (term : str) : keeps_match (m_mark term).
Proof.
  intros s n r. unfold m_mark. destruct term as [|a term]; [discriminate|].
  destruct (starts_with_ci (a :: term) s); [|discriminate].
  intros [= <- <-]. apply (sublist_inserts_l (lit "<mark>")).
  apply sublist_inserts_r. reflexivity.
Qed.

Lemma sub_sublist (m : matcher) (s : str) : keeps_match m -> sublist s (sub m s).
Proof.
  intros K. pose proof (sub_go_sublist m 0 s K) as H. now rewrite drop_0 in H.
Qed.

Lemma fold_mark_sublist (terms : list str) (s : str) :
  sublist s (fold_left (fun highlighted term => sub (m_mark term) highlighted) terms s).
Proof.
  revert s. induction terms as [|t terms IH]; intros s; simpl; [reflexivity|].
  transitivity (sub (m_mark t) s); [|apply IH].
  apply sub_sublist, keeps_match_mark.
Qed.

(** X2. [highlight_query] only inserts: the characters of the text stand in
    the output, all of them and in their order. *)
Theorem highlight_query_keeps_text (text query : str) :
  sublist text (highlight_query text query).
Proof.
  unfold highlight_query.
  destruct text as [|t0 text]; [destruct query; constructor|].
  destruct query as [|q0 query]; [reflexivity|].
  etransitivity; [|apply fold_mark_sublist].
  unfold replace.
  transitivity (sub (m_literal (lit "&") (lit "&amp;")) (t0 :: text)).
  { apply sub_sublist, keeps_match_literal. apply sublist_skip, sublist_nil_l. }
  transitivity (sub (m_literal (lit "<") (lit "<"))
                  (sub (m_literal (lit "&") (lit "&amp;")) (t0 :: text))).
  { apply sub_sublist, keeps_match_literal. reflexivity. }
  apply sub_sublist, keeps_match_literal. reflexivity.
Qed.

End HighlightFacts.

Section ExcerptFacts.
Import PyStr Search Props Notions.

Lemma starts_with_app (p s : str) : starts_with p (p ++ s) = true.
Proof. induction p as [|a p IH]; simpl; [reflexivity|]. now rewrite Ascii.eqb_refl. Qed.

Lemma starts_with_split (p s : str) :
  starts_with p s = true -> exists b, s = p ++ b.
Proof.
  revert s. induction p as [|a p IH]; intros s; [now exists s|].
  destruct s as [|c s]; simpl; [discriminate|]. intros H.
  apply andb_prop in H as [H1 H2]. apply Ascii.eqb_eq in H1. subst c.
  destruct (IH _ H2) as (b & ->). now exists b.
Qed.

Lemma ends_with_app (x p : str) : ends_with p (x ++ p) = true.
Proof. unfold ends_with. rewrite rev_app_distr. apply starts_with_app. Qed.

(** Where [find] finds [sub], there [sub] stands. *)
Lemma find_split (sub s : str) (pos : nat) :
  find sub s = Some pos -> exists a b, s = a ++ sub ++ b /\ List.length a = pos.
Proof.
  revert pos. induction s as [|c s IH]; intros pos; simpl.
  - destruct (starts_with sub []) eqn:E; [|discriminate]. intros [= <-].
    apply starts_with_split in E as (b & E). now exists [], b.
  - destruct (starts_with sub (c :: s)) eqn:E.
    + intros [= <-]. apply starts_with_split in E as (b & E). now exists [], b.
    + destruct (find sub s) as [n|]; [|discriminate]. intros [= <-].
      destruct (IH n eq_refl) as (a & b & -> & L). exists (c :: a), b.
      simpl. now rewrite L.
Qed.

Lemma contains_intro (sub x y : str) : contains sub (x ++ sub ++ y) = true.
Proof.
  unfold contains. induction x as [|c x IH]; simpl.
  - destruct sub as [|a sub]; [now destruct y|].
    simpl. now rewrite Ascii.eqb_refl, starts_with_app.
  - destruct (starts_with sub (c :: x ++ sub ++ y)); [reflexivity|].
    now destruct (find sub (x ++ sub ++ y)).
Qed.

Lemma slice_around (a q b : str) (start end_ : nat) :
  (start <= List.length a)%nat -> (List.length a + List.length q <= end_)%nat ->
  exists x y, slice start end_ (a ++ q ++ b) = x ++ q ++ y.
Proof.
  intros H1 H2. unfold slice.
  rewrite take_app_ge by lia. rewrite take_app_ge by lia.
  rewrite drop_app_le by exact H1. eauto.
Qed.

Lemma no_lt_no_tag (s : str) :
  Forall (fun c => c <> "<"%char) s -> has_tag s = false.
Proof.
  induction 1 as [|c s Hc _ IH]; [reflexivity|].
  change (has_tag (c :: s))
    with (match m_tag (c :: s) with Some _ => true | None => has_tag s end).
  now rewrite (m_tag_other c s Hc).
Qed.

Lemma normalized_no_tag (s : str) : _normalize_query s = s -> strip_tags s = s.
Proof.
  intros H. apply sub_tag_id, no_lt_no_tag.
  pose proof (normalize_settled s) as F. rewrite H in F.
  eapply Forall_impl; [exact F|]. intros c [_ Hc] ->. discriminate.
Qed.

(** X3. A set flag shows in the text: when [get_excerpt] returns the flag
    [True], the excerpt ends with [...]. *)
Theorem get_excerpt_flag_ellipsis (content query : str) (length : nat) :
  snd (get_excerpt content query length) = true ->
  ends_with (lit "...") (fst (get_excerpt content query length)) = true.
Proof.
  destruct content as [|c0 content]; [discriminate|].
  destruct query as [|q0 query]; [discriminate|].
  destruct (get_excerpt_window (c0 :: content) (q0 :: query) length)
    as (start & end_ & _ & _ & ->); [discriminate|discriminate|].
  cbn [fst snd]. intros ->. rewrite app_assoc. apply ends_with_app.
Qed.

Lemma get_excerpt_flag_ellipsis_witness :
  ends_with (lit "...") (fst (get_excerpt (lit "hello world") (lit "zzz") 5)) = true.
Proof. apply get_excerpt_flag_ellipsis. reflexivity. Defined.

(** X4. The excerpt shows the match when the positions agree: for a content
    and a query that are in normal form, the query not empty, a query that
    occurs in the content occurs in the excerpt. *)
Theorem get_excerpt_shows_match (content query : str) (length : nat) :
  query <> [] ->
  _normalize_query query = query ->
  _normalize_query content = content ->
  contains query content = true ->
  contains query (fst (get_excerpt content query length)) = true.
Proof.
  intros Hq Nq Nc Hf. unfold get_excerpt.
  destruct query as [|q0 query]; [congruence|].
  destruct content as [|c0 content]; [discriminate|].
  rewrite (normalized_no_tag _ Nc), Nq, Nc.
  unfold contains in Hf. destruct (find _ _) as [pos|] eqn:F; [|discriminate].
  destruct (find_split _ _ _ F) as (a & b & E & L).
  cbn [fst]. pose proof (f_equal List.length E) as LE. rewrite !length_app in LE.
  set (n := List.length (c0 :: content)) in *.
  set (lq := List.length (q0 :: query)) in *.
  destruct (slice_around a (q0 :: query) b
              (Nat.max 0 (pos - length / 2)) (Nat.min n (pos + lq + length / 2)))
    as (x & y & S); [lia|fold lq; lia|].
  rewrite E, S. rewrite <- !app_assoc. rewrite app_assoc. apply contains_intro.
Qed.

Lemma get_excerpt_shows_match_witness :
  contains (lit "search term")
    (fst (get_excerpt (lit "a long piece of content that contains the search term in it")
            (lit "search term") 20)) = true.
Proof.
  apply get_excerpt_shows_match; [discriminate|reflexivity|reflexivity|reflexivity].
Defined.

End ExcerptFacts.

(** ** The order of strings *)

Section StrOrder.
Import PyStr.

Lemma code_inj (x y : ascii) : code x = code y -> x = y.
Proof.
  unfold code. intros E.
  rewrite <- (ascii_N_embedding x), <- (ascii_N_embedding y). now rewrite E.
Qed.

Lemma str_leb_total (a b : str) : str_leb a b = false -> str_leb b a = true.
Proof.
  revert b. induction a as [|x a IH]; intros [|y b]; simpl; try easy.
  destruct (N.ltb_spec (code x) (code y)); [discriminate|].
  destruct (N.ltb_spec (code y) (code x)); [reflexivity|]. apply IH.
Qed.

Lemma str_leb_trans (a b c : str) :
  str_leb a b = true -> str_leb b c = true -> str_leb a c = true.
Proof.
  revert b c. induction a as [|x a IH]; intros [|y b] [|z c]; simpl; try easy.
  destruct (N.ltb_spec (code x) (code y)), (N.ltb_spec (code y) (code x)),
    (N.ltb_spec (code y) (code z)), (N.ltb_spec (code z) (code y)),
    (N.ltb_spec (code x) (code z)), (N.ltb_spec (code z) (code x));
    try easy; try lia.
  apply IH.
Qed.

Lemma str_leb_antisym (a b : str) :
  str_leb a b = true -> str_leb b a = true -> a = b.
Proof.
  revert b. induction a as [|x a IH]; intros [|y b]; simpl; try easy.
  destruct (N.ltb_spec (code x) (code y)), (N.ltb_spec (code y) (code x));
    try easy; try lia.
  intros H1 H2. f_equal; [apply code_inj; lia|now apply IH].
Qed.

End StrOrder.

(** ** What [search] returns *)

Section SearchResults.
Import PyStr Models Search Props.

Lemma limit_to_In {A : Type} (limit : option nat) (l : list A) (x : A) :
  In x (limit_to limit l) -> In x l.
Proof. destruct limit as [[|n]|]; simpl; auto. apply take_In. Qed.

Lemma limit_to_sorted {A : Type} (R : A -> A -> Prop) (limit : option nat) (l : list A) :
  StronglySorted R l -> StronglySorted R (limit_to limit l).
Proof. destruct limit as [[|n]|]; simpl; auto. apply StronglySorted_take. Qed.

Lemma limit_to_length {A : Type} (n : nat) (l : list A) :
  (List.length (limit_to (Some (S n)) l) <= S n)%nat.
Proof. unfold limit_to. rewrite length_take. lia. Qed.

Lemma sorted_trivially {A : Type} (l : list A) : StronglySorted (fun _ _ => True) l.
Proof. induction l; constructor; [assumption|]. now apply List.Forall_forall. Qed.

(** [ORDER BY] puts the rows in the order [leb]. *)
Lemma order_by_sorted {A : Type} (leb : A -> A -> bool) (l : list A) :
  (forall x y, leb x y = false -> leb y x = true) ->
  (forall x y z, leb x y = true -> leb y z = true -> leb x z = true) ->
  StronglySorted (fun x y => leb x y = true) (order_by leb l).
Proof.
  intros T R.
  eapply StronglySorted_weaken;
    [|apply (order_by_ranked leb (fun _ _ => True) T R), sorted_trivially].
  now intros a b _ _ [H _].
Qed.

(** A call that finds nothing in the cache under its key returns what the
    body gives on the tables. *)
Lemma search_miss {Store : Type} (db : SearchMethod.database)
    (cache : SearchMethod.result_cache Store) (request : option (list (str * str)))
    (self : str) (posts_table : list Post) (pages_table : list Page)
    (a : SearchMethod.arguments) (s s' : Store) (result : SearchMethod.result) :
  fst (SearchMethod.rc_get cache
         (Cache._make_cache_key (lit "search") (lit "memo")
            (SearchMethod.positional self a) (SearchMethod.keywords a) request) s)
  = Cache.Return None ->
  SearchMethod.search db cache request self posts_table pages_table a s
  = (Cache.Return result, s') ->
  result = SearchMethod.search_body db posts_table pages_table
             (SearchMethod.query_of a) (SearchMethod.limit_of a)
             (SearchMethod.include_drafts_of a).
Proof.
  unfold SearchMethod.search, Cache.bind, Cache.ret.
  set (key := Cache._make_cache_key _ _ _ _ _).
  destruct (SearchMethod.rc_get cache key s) as [r s1]. cbn [fst].
  intros -> H.
  destruct (SearchMethod.rc_set cache key _ _ s1) as [[ok|e] s2];
    [|discriminate].
  now injection H as <- _.
Qed.

(** A call that finds an entry under its key returns the entry, whatever the
    tables hold. *)
Lemma search_hit {Store : Type} (db : SearchMethod.database)
    (cache : SearchMethod.result_cache Store) (request : option (list (str * str)))
    (self : str) (posts_table : list Post) (pages_table : list Page)
    (a : SearchMethod.arguments) (s s1 : Store) (rv : SearchMethod.result) :
  SearchMethod.rc_get cache
    (Cache._make_cache_key (lit "search") (lit "memo")
       (SearchMethod.positional self a) (SearchMethod.keywords a) request) s
  = (Cache.Return (Some rv), s1) ->
  SearchMethod.search db cache request self posts_table pages_table a s
  = (Cache.Return rv, s1).
Proof.
  unfold SearchMethod.search, Cache.bind, Cache.ret.
  set (key := Cache._make_cache_key _ _ _ _ _). now intros ->.
Qed.

Lemma search_body_sound (db : SearchMethod.database) (posts_table : list Post)
    (pages_table : list Page) (query : str) (limit : option nat)
    (include_drafts : bool) :
  (forall x y, SearchMethod.db_title_leb db x y = false ->
               SearchMethod.db_title_leb db y x = true) ->
  (forall x y z, SearchMethod.db_title_leb db x y = true ->
                 SearchMethod.db_title_leb db y z = true ->
                 SearchMethod.db_title_leb db x z = true) ->
  let result :=
    SearchMethod.search_body db posts_table pages_table query limit include_drafts in
  let pattern := lit "%" ++ _normalize_query query ++ lit "%" in
  Forall (fun p => In p posts_table
                   /\ include_drafts || post_published p = true
                   /\ SearchMethod.post_found db pattern p = true) (fst result)
  /\ Forall (fun p => In p pages_table
                      /\ include_drafts || page_published p = true
                      /\ SearchMethod.page_found db pattern p = true) (snd result)
  /\ StronglySorted (fun a b => (post_created_at b <= post_created_at a)%Z) (fst result)
  /\ StronglySorted
       (fun a b => SearchMethod.db_title_leb db (page_title a) (page_title b) = true)
       (snd result)
  /\ (forall n, limit = Some (S n) ->
                (List.length (fst result) <= S n)%nat
                /\ (List.length (snd result) <= S n)%nat).
Proof.
  intros Tot Tra result pattern. subst result pattern.
  unfold SearchMethod.search_body.
  destruct query as [|q0 query].
  { cbn [fst snd]. repeat split; try constructor; simpl; lia. }
  set (q := lit "%" ++ _normalize_query (q0 :: query) ++ lit "%"). cbn [fst snd].
  split; [|split; [|split; [|split]]].
  - apply List.Forall_forall. intros p Hp. apply limit_to_In in Hp.
    apply order_by_In, filter_In in Hp as [Hp Hm].
    destruct include_drafts; simpl; [auto|].
    apply filter_In in Hp as [Hp Hpub]. auto.
  - apply List.Forall_forall. intros p Hp. apply limit_to_In in Hp.
    apply order_by_In, filter_In in Hp as [Hp Hm].
    destruct include_drafts; simpl; [auto|].
    apply filter_In in Hp as [Hp Hpub]. auto.
  - apply limit_to_sorted.
    eapply StronglySorted_weaken; [|apply order_by_sorted].
    + intros a b _ _ H. now apply Z.leb_le in H.
    + intros x y H. apply Z.leb_gt in H. apply Z.leb_le. lia.
    + intros x y z. rewrite !Z.leb_le. lia.
  - apply limit_to_sorted.
    apply (order_by_sorted
             (fun a b => SearchMethod.db_title_leb db (page_title a) (page_title b))).
    + intros x y. apply Tot.
    + intros x y z. apply Tra.
  - intros n ->. split; apply limit_to_length.
Qed.

Lemma search_body_complete (db : SearchMethod.database) (posts_table : list Post)
    (pages_table : list Page) (query : str) (limit : option nat)
    (include_drafts : bool) :
  query <> [] -> limit = None \/ limit = Some 0%nat ->
  let result :=
    SearchMethod.search_body db posts_table pages_table query limit include_drafts in
  let pattern := lit "%" ++ _normalize_query query ++ lit "%" in
  (forall p, In p posts_table -> include_drafts || post_published p = true ->
             SearchMethod.post_found db pattern p = true -> In p (fst result))
  /\ (forall p, In p pages_table -> include_drafts || page_published p = true ->
                SearchMethod.page_found db pattern p = true -> In p (snd result)).
Proof.
  intros Hq Hl result pattern. subst result pattern.
  unfold SearchMethod.search_body.
  destruct query as [|q0 query]; [congruence|].
  set (q := lit "%" ++ _normalize_query (q0 :: query) ++ lit "%"). cbn [fst snd].
  assert (L : forall A (l : list A), limit_to limit l = l)
    by (intros A l; destruct Hl as [->| ->]; reflexivity).
  rewrite !L. split; intros p Hp Hpub Hm; apply order_by_In, filter_In;
    (split; [|exact Hm]); destruct include_drafts; auto;
    apply filter_In; auto.
Qed.

(** On the dictionary cache, a call that finds nothing under its key stores
    what the body gives and returns it. *)
Lemma search_dict_miss (db : SearchMethod.database)
    (request : option (list (str * str))) (self : str)
    (posts_table : list Post) (pages_table : list Page)
    (a : SearchMethod.arguments) (d : gmap str SearchMethod.result) :
  let cache_key :=
    Cache._make_cache_key (lit "search") (lit "memo")
      (SearchMethod.positional self a) (SearchMethod.keywords a) request in
  let rv := SearchMethod.search_body db posts_table pages_table
              (SearchMethod.query_of a) (SearchMethod.limit_of a)
              (SearchMethod.include_drafts_of a) in
  d !! cache_key = None ->
  SearchMethod.search db SearchMethod.dict_cache request self posts_table pages_table a d
  = (Cache.Return rv, <[cache_key := rv]> d).
Proof.
  intros cache_key rv E.
  unfold SearchMethod.search, Cache.bind, Cache.ret, SearchMethod.dict_cache.
  cbn [SearchMethod.rc_get SearchMethod.rc_set].
  fold cache_key. now rewrite E.
Qed.

(** X5. What a call of [search] returns when the cache holds nothing under
    its key, on a database whose order of titles is total and transitive:
    every post and page of the result is a row of its table, is published
    unless drafts were asked for, and has a column that the database finds
    [ilike] the pattern made of the normalized query between two [%]; the
    posts stand newest first, the pages by title; and a limit other than 0
    bounds both lists. *)
Theorem search_sound {Store : Type} (db : SearchMethod.database)
    (cache : SearchMethod.result_cache Store) (request : option (list (str * str)))
    (self : str) (posts_table : list Post) (pages_table : list Page)
    (a : SearchMethod.arguments) (s s' : Store) (result : SearchMethod.result) :
  (forall x y, SearchMethod.db_title_leb db x y = false ->
               SearchMethod.db_title_leb db y x = true) ->
  (forall x y z, SearchMethod.db_title_leb db x y = true ->
                 SearchMethod.db_title_leb db y z = true ->
                 SearchMethod.db_title_leb db x z = true) ->
  fst (SearchMethod.rc_get cache
         (Cache._make_cache_key (lit "search") (lit "memo")
            (SearchMethod.positional self a) (SearchMethod.keywords a) request) s)
  = Cache.Return None ->
  SearchMethod.search db cache request self posts_table pages_table a s
  = (Cache.Return result, s') ->
  let include_drafts := SearchMethod.include_drafts_of a in
  let pattern := lit "%" ++ _normalize_query (SearchMethod.query_of a) ++ lit "%" in
  Forall (fun p => In p posts_table
                   /\ include_drafts || post_published p = true
                   /\ SearchMethod.post_found db pattern p = true) (fst result)
  /\ Forall (fun p => In p pages_table
                      /\ include_drafts || page_published p = true
                      /\ SearchMethod.page_found db pattern p = true) (snd result)
  /\ StronglySorted (fun a b => (post_created_at b <= post_created_at a)%Z) (fst result)
  /\ StronglySorted
       (fun a b => SearchMethod.db_title_leb db (page_title a) (page_title b) = true)
       (snd result)
  /\ (forall n, SearchMethod.limit_of a = Some (S n) ->
                (List.length (fst result) <= S n)%nat
                /\ (List.length (snd result) <= S n)%nat).
Proof.
  intros Tot Tra Miss Run. rewrite (search_miss _ _ _ _ _ _ _ _ _ _ Miss Run).
  exact (search_body_sound db posts_table pages_table _ _ _ Tot Tra).
Qed.

(** X6. Without a limit nothing is left out: a call of [search] with a query
    that is not empty and no limit (or the limit 0), when the cache holds
    nothing under its key, returns every published row with a column that the
    database finds [ilike] the pattern made of the normalized query between
    two [%], and every such row when drafts are asked for. *)
Theorem search_complete {Store : Type} (db : SearchMethod.database)
    (cache : SearchMethod.result_cache Store) (request : option (list (str * str)))
    (self : str) (posts_table : list Post) (pages_table : list Page)
    (a : SearchMethod.arguments) (s s' : Store) (result : SearchMethod.result) :
  SearchMethod.query_of a <> [] ->
  SearchMethod.limit_of a = None \/ SearchMethod.limit_of a = Some 0%nat ->
  fst (SearchMethod.rc_get cache
         (Cache._make_cache_key (lit "search") (lit "memo")
            (SearchMethod.positional self a) (SearchMethod.keywords a) request) s)
  = Cache.Return None ->
  SearchMethod.search db cache request self posts_table pages_table a s
  = (Cache.Return result, s') ->
  let include_drafts := SearchMethod.include_drafts_of a in
  let pattern := lit "%" ++ _normalize_query (SearchMethod.query_of a) ++ lit "%" in
  (forall p, In p posts_table -> include_drafts || post_published p = true ->
             SearchMethod.post_found db pattern p = true -> In p (fst result))
  /\ (forall p, In p pages_table -> include_drafts || page_published p = true ->
                SearchMethod.page_found db pattern p = true -> In p (snd result)).
Proof.
  intros Hq Hl Miss Run. rewrite (search_miss _ _ _ _ _ _ _ _ _ _ Miss Run).
  exact (search_body_complete db posts_table pages_table _ _ _ Hq Hl).
Qed.

End SearchResults.

Section SearchWitnesses.
Import PyStr Models Search Scenario.

(** [search.search('TEST!', limit=1)] on the default database, with nothing
    in the cache. *)
Lemma search_sound_witness :
  exists d,
    SearchMethod.search SearchMethod.sqlite SearchMethod.dict_cache None
      search_object posts_table pages_table
      (SearchMethod.Query (lit "TEST!") (Some (Some 1%nat)) None) ∅
    = (Cache.Return ([test_post], []), d)
    /\ Forall (fun p => In p posts_table
                        /\ false || post_published p = true
                        /\ SearchMethod.post_found SearchMethod.sqlite (lit "%test%") p
                           = true)
         [test_post].
Proof.
  pose proof (search_dict_miss SearchMethod.sqlite None search_object posts_table
                pages_table (SearchMethod.Query (lit "TEST!") (Some (Some 1%nat)) None)
                ∅ (lookup_empty _)) as Run.
  cbv zeta in Run. eexists. split; [exact Run|].
  exact (proj1 (search_sound SearchMethod.sqlite SearchMethod.dict_cache None
                  search_object posts_table pages_table
                  (SearchMethod.Query (lit "TEST!") (Some (Some 1%nat)) None) ∅ _ _
                  str_leb_total str_leb_trans
                  (f_equal Cache.Return (lookup_empty _)) Run)).
Defined.

(** [search.search('TEST!')] on the default database, with nothing in the
    cache. *)
Lemma search_complete_witness :
  exists d,
    SearchMethod.search SearchMethod.sqlite SearchMethod.dict_cache None
      search_object posts_table pages_table
      (SearchMethod.Query (lit "TEST!") None None) ∅
    = (Cache.Return ([test_post], []), d)
    /\ In test_post [test_post].
Proof.
  pose proof (search_dict_miss SearchMethod.sqlite None search_object posts_table
                pages_table (SearchMethod.Query (lit "TEST!") None None)
                ∅ (lookup_empty _)) as Run.
  cbv zeta in Run. eexists. split; [exact Run|].
  refine (proj1 (search_complete SearchMethod.sqlite SearchMethod.dict_cache None
                   search_object posts_table pages_table
                   (SearchMethod.Query (lit "TEST!") None None) ∅ _ _
                   ltac:(discriminate) (or_introl eq_refl)
                   (f_equal Cache.Return (lookup_empty _)) Run)
            test_post _ _ _).
  - right. now left.
  - reflexivity.
  - reflexivity.
Defined.

End SearchWitnesses.


(** ** The terms of the keyword extractor *)

Section KeywordTerms.
Import PyStr Search Props.

Lemma insert_by_perm {A : Type} (leb : A -> A -> bool) (x : A) (l : list A) :
  Permutation (insert_by leb x l) (x :: l).
Proof.
  induction l as [|y l IH]; simpl; [reflexivity|].
  destruct (leb x y); [reflexivity|].
  rewrite IH. apply perm_swap.
Qed.

Lemma order_by_perm {A : Type} (leb : A -> A -> bool) (l : list A) :
  Permutation (order_by leb l) l.
Proof.
  induction l as [|x l IH]; simpl; [reflexivity|].
  rewrite insert_by_perm. now constructor.
Qed.

Lemma NoDup_take {A : Type} (n : nat) (l : list A) :
  List.NoDup l -> List.NoDup (take n l).
Proof.
  intros H. revert n. induction H as [|x l Hx _ IH]; intros [|n]; simpl;
    try constructor; [|apply IH].
  intros Hin. apply Hx. now apply take_In in Hin.
Qed.

Lemma map_take {A B : Type} (f : A -> B) (n : nat) (l : list A) :
  map f (take n l) = take n (map f l).
Proof. revert n. induction l as [|x l IH]; intros [|n]; simpl; now rewrite ?IH. Qed.

(** The words [split] cuts out are not empty and hold no white space. *)
Lemma split_go_tokens (Q : ascii -> Prop) (cur s : str) :
  Forall (fun c => is_space c = false /\ Q c) cur -> Forall Q s ->
  Forall (fun w => w <> [] /\ Forall (fun c => is_space c = false /\ Q c) w)
         (split_go cur s).
Proof.
  intros Hc Hs. revert cur Hc. induction Hs as [|c s Hq _ IH]; intros cur Hc; simpl.
  - destruct cur as [|d cur]; constructor; [|constructor].
    split; [|now apply Forall_rev].
    intros E. apply (f_equal (@rev ascii)) in E. rewrite rev_involutive in E.
    discriminate.
  - destruct (is_space c) eqn:Sp.
    + destruct cur as [|d cur]; [now apply IH|].
      constructor; [|now apply IH].
      split; [|now apply Forall_rev].
      intros E. apply (f_equal (@rev ascii)) in E. rewrite rev_involutive in E.
      discriminate.
    + apply IH. now constructor.
Qed.

Lemma kept_words_tokens (text : str) (min_length : nat) :
  Forall (fun w => w <> [] /\ Forall (fun c => is_space c = false /\ lower_char c = c) w)
         (kept_words text min_length).
Proof.
  unfold kept_words. apply List.Forall_forall. intros w Hw.
  apply filter_In in Hw as [Hw _]. revert w Hw. apply List.Forall_forall.
  apply split_go_tokens; [constructor|].
  unfold lower. apply List.Forall_forall. intros c Hc.
  apply in_map_iff in Hc as (d & <- & _). apply lower_char_idem.
Qed.

Lemma count_words_length (ws : list str) :
  List.length (count_words ws)
  = List.length (List.nodup (List.list_eq_dec ascii_dec) ws).
Proof.
  destruct (count_words_spec ws) as (N & I & _ & _).
  rewrite <- (length_map fst). apply Permutation_length.
  apply Permutation.NoDup_Permutation; [exact N|apply List.NoDup_nodup|].
  intros w. rewrite I. symmetry. apply nodup_In.
Qed.

(** X7. The terms [_extract_keywords] returns are distinct, none is empty,
    and each is in lower case and free of white space.  A text with no more
    than [max_keywords] different words of the counted kind has all of them
    returned. *)
Theorem extract_keywords_terms (text : str) (min_length max_keywords : nat) :
  let keywords := _extract_keywords text min_length max_keywords in
  let words := kept_words text min_length in
  List.NoDup keywords
  /\ Forall (fun w => w <> []
                      /\ Forall (fun c => is_space c = false /\ lower_char c = c) w)
            keywords
  /\ ((List.length (List.nodup (List.list_eq_dec ascii_dec) words) <= max_keywords)%nat ->
      forall w, In w words -> In w keywords).
Proof.
  intros keywords words. subst keywords. unfold _extract_keywords.
  change (List.filter _ (split (lower (strip_tags text)))) with words.
  destruct (count_words_spec words) as (N & I & _ & _).
  split; [|split].
  - rewrite map_take. apply NoDup_take.
    eapply Permutation.Permutation_NoDup; [|exact N].
    symmetry. apply Permutation_map, order_by_perm.
  - pose proof (kept_words_tokens text min_length) as T. fold words in T.
    rewrite List.Forall_forall in *. intros w Hw. apply T.
    apply in_map_iff in Hw as ([w' v] & <- & Hw). simpl.
    apply take_In, order_by_In in Hw. apply I.
    change w' with (fst (w', v)). now apply in_map.
  - intros L w Hw. rewrite <- count_words_length in L.
    rewrite take_ge
      by (rewrite (Permutation_length (order_by_perm by_count_desc _)); exact L).
    apply I in Hw. apply in_map_iff in Hw as (x & <- & Hx).
    apply in_map. now apply order_by_In.
Qed.

End KeywordTerms.

(** ** The form of a cache key *)

Section KeyForm.
Import PyStr Cache Props Notions.
Local Open Scope Z_scope.

Lemma le_bytes_length (n : nat) (x : Z) : List.length (Md5.le_bytes n x) = n.
Proof. revert x. induction n as [|n IH]; intros x; simpl; [reflexivity|]. now rewrite IH. Qed.

Lemma hex_length (bs : list Z) : List.length (Md5.hex bs) = (2 * List.length bs)%nat.
Proof. induction bs as [|b bs IH]; simpl; [reflexivity|]. rewrite IH. lia. Qed.

Lemma hex_digit_hex (v : Z) : 0 <= v < 16 -> is_hex (Md5.hex_digit v).
Proof.
  intros H. unfold is_hex, Md5.hex_digit. apply nth_In.
  change (List.length (lit "0123456789abcdef")) with 16%nat. lia.
Qed.

Lemma hex_hex (bs : list Z) : Forall is_byte bs -> Forall is_hex (Md5.hex bs).
Proof.
  induction 1 as [|b bs Hb _ IH]; simpl; [constructor|]. unfold is_byte in Hb.
  constructor; [|constructor; [|exact IH]]; apply hex_digit_hex.
  - split; [apply Z.div_pos|apply Z.div_lt_upper_bound]; lia.
  - apply Z.mod_pos_bound. lia.
Qed.

(** X8. Whatever the function, the prefix, the arguments and the request
    parameters, the cache key is a string of 32 characters, each one of
    [0123456789abcdef]. *)
Theorem make_cache_key_form (f_name key_prefix : str) (args : list pyval)
    (kwargs : list (str * pyval)) (request : option (list (str * str))) :
  List.length (_make_cache_key f_name key_prefix args kwargs request) = 32%nat
  /\ Forall is_hex (_make_cache_key f_name key_prefix args kwargs request).
Proof.
  unfold _make_cache_key, Md5.hexdigest. split.
  - rewrite hex_length. unfold Md5.digest.
    now rewrite !length_app, !le_bytes_length.
  - apply hex_hex, digest_bytes.
Qed.

End KeyForm.

Section KeyOrder.
Import PyStr Cache Props.

Lemma sorted_perm_unique {A : Type} (R : A -> A -> Prop) (l1 l2 : list A) :
  (forall x y, In x l1 -> In y l1 -> R x y -> R y x -> x = y) ->
  StronglySorted R l1 -> StronglySorted R l2 -> Permutation l1 l2 -> l1 = l2.
Proof.
  revert l2. induction l1 as [|x t1 IH]; intros l2 Anti S1 S2 P.
  - now apply Permutation_nil in P.
  - destruct l2 as [|y t2]; [now apply Permutation_sym, Permutation_nil in P|].
    apply StronglySorted_inv in S1 as [S1 F1].
    apply StronglySorted_inv in S2 as [S2 F2].
    rewrite List.Forall_forall in F1, F2.
    assert (E : x = y).
    { assert (Hx : In x (y :: t2)) by (eapply Permutation_in; [exact P|now left]).
      assert (Hy : In y (x :: t1))
        by (eapply Permutation_in; [symmetry; exact P|now left]).
      destruct Hx as [Hx|Hx]; [now symmetry|].
      destruct Hy as [Hy|Hy]; [exact Hy|].
      apply Anti; [now left|now right|now apply F1|now apply F2]. }
    subst y. f_equal. apply IH; try assumption.
    + intros a b Ha Hb. apply Anti; now right.
    + now apply Permutation_cons_inv in P.
Qed.

Lemma NoDup_map_eq {A B : Type} (f : A -> B) (l : list A) (x y : A) :
  List.NoDup (map f l) -> In x l -> In y l -> f x = f y -> x = y.
Proof.
  induction l as [|z l IH]; simpl; [tauto|]. intros N Hx Hy E.
  apply List.NoDup_cons_iff in N as [N0 N].
  destruct Hx as [->|Hx], Hy as [->|Hy]; auto.
  - exfalso. apply N0. rewrite E. now apply in_map.
  - exfalso. apply N0. rewrite <- E. now apply in_map.
Qed.

Lemma sorted_items_perm {V : Type} (items items' : list (str * V)) :
  List.NoDup (map fst items) -> Permutation items items' ->
  sorted_items items = sorted_items items'.
Proof.
  intros N P. unfold sorted_items.
  apply (sorted_perm_unique (fun x y => str_leb (fst x) (fst y) = true)).
  - intros x y Hx Hy H1 H2. apply order_by_In in Hx, Hy.
    apply (NoDup_map_eq fst items); auto. now apply str_leb_antisym.
  - apply (order_by_sorted (fun x y => str_leb (fst x) (fst y))).
    + intros x y. apply str_leb_total.
    + intros x y z. apply str_leb_trans.
  - apply (order_by_sorted (fun x y => str_leb (fst x) (fst y))).
    + intros x y. apply str_leb_total.
    + intros x y z. apply str_leb_trans.
  - rewrite !order_by_perm. exact P.
Qed.

(** X9. The key does not depend on the order in which the keyword arguments
    or the request parameters were given: dictionaries with the same pairs,
    their keys distinct, give the same cache key. *)
Theorem make_cache_key_order (f_name key_prefix : str) (args : list pyval)
    (kwargs kwargs' : list (str * pyval)) (params params' : list (str * str)) :
  List.NoDup (map fst kwargs) -> Permutation kwargs kwargs' ->
  List.NoDup (map fst params) -> Permutation params params' ->
  _make_cache_key f_name key_prefix args kwargs (Some params)
  = _make_cache_key f_name key_prefix args kwargs' (Some params')
  /\ _make_cache_key f_name key_prefix args kwargs None
     = _make_cache_key f_name key_prefix args kwargs' None.
Proof.
  intros N P N' P'. unfold _make_cache_key, key_parts.
  now rewrite (sorted_items_perm _ _ N P), (sorted_items_perm _ _ N' P').
Qed.

Lemma make_cache_key_order_witness :
  _make_cache_key (lit "view") (lit "view") [PInt 7]
    [(lit "page", PInt 2); (lit "lang", PStr (lit "en"))]
    (Some [(lit "q", lit "x"); (lit "a", lit "y")])
  = _make_cache_key (lit "view") (lit "view") [PInt 7]
      [(lit "lang", PStr (lit "en")); (lit "page", PInt 2)]
      (Some [(lit "a", lit "y"); (lit "q", lit "x")]).
Proof.
  refine (proj1 (make_cache_key_order (lit "view") (lit "view") [PInt 7]
                   [(lit "page", PInt 2); (lit "lang", PStr (lit "en"))]
                   [(lit "lang", PStr (lit "en")); (lit "page", PInt 2)]
                   [(lit "q", lit "x"); (lit "a", lit "y")]
                   [(lit "a", lit "y"); (lit "q", lit "x")] _ _ _ _)).
  - repeat constructor; simpl; intuition discriminate.
  - apply perm_swap.
  - repeat constructor; simpl; intuition discriminate.
  - apply perm_swap.
Defined.

End KeyOrder.

(** ** Cached values *)

Section RememberFacts.
Import PyStr Cache Remember.
Context {S W : Type} (cache : backend S) (key : str) (timeout : option Z).


Lemma remember_miss_state (f : pyfun W) args kwargs s w v :
  fst (get cache key s) = Return PNone ->
  fst (fn_call f args kwargs w) = Return v ->
  snd (remember cache key timeout f args kwargs (s, w))
  = (snd (set cache key v timeout (snd (get cache key s))),
     snd (fn_call f args kwargs w)).
Proof.
  intros Hg Hf. unfold remember, bind, on_fst, on_snd, ret. cbn [fst snd].
  destruct (get cache key s) as [r s1]. cbn [fst snd] in *. subst r.
  cbn [is_not_none]. cbv beta. cbn [fst snd].
  destruct (fn_call f args kwargs w) as [r w1]. cbn [fst snd] in *. subst r.
  now destruct (set cache key v timeout s1) as [[b|e] s2].
Qed.


(** X11. [remember] keeps one entry for its key, whoever asks: once a call
    has stored a value other than [None], a call of any function decorated
    with the same key, with any arguments, returns that value and does not
    run the function. *)
Theorem remember_shares_entry (f g : pyfun W) args kwargs args' kwargs'
    (timeout' : option Z) (v : pyval) s w :
  is_not_none v = true ->
  fst (get cache key s) = Return PNone ->
  fst (fn_call f args kwargs w) = Return v ->
  (forall s, fst (get cache key (snd (set cache key v timeout s))) = Return v) ->
  let st := snd (remember cache key timeout f args kwargs (s, w)) in
  remember cache key timeout' g args' kwargs' st
  = (Return v, (snd (get cache key (fst st)), snd (fn_call f args kwargs w))).
Proof.
  intros Hv Hg Hf L st. subst st.
  rewrite (remember_miss_state f args kwargs s w v Hg Hf).
  specialize (L (snd (get cache key s))).
  destruct (get cache key (snd (set cache key v timeout (snd (get cache key s)))))
    as [r s2] eqn:G.
  cbn [fst snd] in *. subst r.
  unfold remember, bind, on_fst. cbn [fst snd]. now rewrite G, Hv.
Qed.

End RememberFacts.

Section CachedOnce.
Import PyStr Cache Remember.
Context {Store W : Type} (cache : backend Store).
Context (request : option (list (str * str))) (timeout : option Z).



End CachedOnce.

Section CachedOnceWitness.
Import PyStr Cache Remember.



Lemma remember_shares_entry_witness :
  fst (remember FileSystemCache (lit "stats") None (counting (lit "g") (PInt 9))
         [PInt 5] []
         (snd (remember FileSystemCache (lit "stats") (Some 60%Z)
                 (counting (lit "f") (PInt 1)) [] [] (empty_cache, 0%nat))))
  = Return (PInt 1).
Proof.
  rewrite (remember_shares_entry FileSystemCache (lit "stats") (Some 60%Z)
             (counting (lit "f") (PInt 1)) (counting (lit "g") (PInt 9))
             [] [] [PInt 5] [] None (PInt 1) empty_cache 0%nat
             eq_refl eq_refl eq_refl
             (fun s => fs_get_after_set _ _ (Some 60%Z) s ltac:(lia))).
  reflexivity.
Defined.

End CachedOnceWitness.

(** ** Invalidation *)

Section InvalidateFacts.
Import PyStr Cache.

Lemma contains_nil (s : str) : contains [] s = true.
Proof. now destruct s. Qed.

(** X12. [invalidate] on the directory of a [FileSystemCache]: a file whose
    name has the pattern in it is gone afterwards, every other file is as it
    was, and the clock is untouched; the empty pattern, which is in every
    name, empties the directory; and a second [invalidate] with the same
    pattern changes nothing. *)
Theorem invalidate_files (pattern : str) (c : fs_cache) :
  (forall name,
      fs_path (snd (invalidate pattern c)) !! name
      = if contains pattern name then None else fs_path c !! name)
  /\ fs_time (snd (invalidate pattern c)) = fs_time c
  /\ fs_path (snd (invalidate [] c)) = ∅
  /\ snd (invalidate pattern (snd (invalidate pattern c))) = snd (invalidate pattern c).
Proof.
  assert (L : forall p d name,
             fs_path (snd (invalidate p d)) !! name
             = if contains p name then None else fs_path d !! name).
  { intros p d name. unfold invalidate. cbn [snd fs_path].
    rewrite map_lookup_filter. destruct (fs_path d !! name) as [file|] eqn:E.
    - cbn. destruct (contains p name) eqn:C.
      + rewrite option_guard_False; [reflexivity|]. cbn. congruence.
      + rewrite option_guard_True; [reflexivity|]. cbn. reflexivity.
    - cbn. now destruct (contains p name). }
  split; [apply L|]. split; [reflexivity|]. split.
  - apply map_empty. intros name. rewrite L, contains_nil. reflexivity.
  - assert (E : fs_path (snd (invalidate pattern (snd (invalidate pattern c))))
                = fs_path (snd (invalidate pattern c))).
    { apply map_eq. intros name. rewrite !L. now destruct (contains pattern name). }
    unfold invalidate in *. cbn [snd fs_path fs_time] in *. now rewrite E.
Qed.

End InvalidateFacts.

(** ** Related posts *)

Section RelatedFacts.
Import PyStr Models Search Related Props.
Context (any_ilike : list str -> Post -> bool).

(** X13. [get_related] returns nothing for a missing post.  For a post it
    returns rows of the table only, never the post itself and never a draft,
    each one let through by the keyword clause of the query; it returns at
    most [limit] of them, and they stand by falling number of keyword
    matches. *)
Theorem get_related_sound (table : list PostRow) (post : PostRow) (limit : nat) :
  let keywords :=
    _extract_keywords
      (post_title (row_post post) ++ lit " " ++ post_content (row_post post)) 4 10 in
  get_related any_ilike table None limit = []
  /\ Forall (fun r => In r table
                      /\ (row_id r =? row_id post)%Z = false
                      /\ post_published (row_post r) = true
                      /\ any_ilike keywords (row_post r) = true)
            (get_related any_ilike table (Some post) limit)
  /\ (List.length (get_related any_ilike table (Some post) limit) <= limit)%nat
  /\ StronglySorted
       (fun a b => (keyword_score keywords (row_post b)
                    <= keyword_score keywords (row_post a))%nat)
       (get_related any_ilike table (Some post) limit).
Proof.
  intros keywords. split; [reflexivity|]. unfold get_related. fold keywords.
  split; [|split].
  - apply List.Forall_forall. intros r Hr.
    apply take_In, order_by_In, filter_In in Hr as [Hr Hc].
    apply andb_prop in Hc as [Hc H3]. apply andb_prop in Hc as [H1 H2].
    repeat split; try assumption. now destruct (row_id r =? row_id post)%Z.
  - rewrite length_take. lia.
  - apply StronglySorted_take.
    eapply StronglySorted_weaken; [|apply order_by_sorted].
    + intros a b _ _ H. now apply Nat.leb_le in H.
    + intros x y H. apply Nat.leb_gt in H. apply Nat.leb_le. lia.
    + intros x y z. rewrite !Nat.leb_le. lia.
Qed.

End RelatedFacts.
